(** * Filesystem statistics of cadvisor ([fs/fs.go], [fs/types.go])

    A shallow embedding of the filesystem-information service: the
    disk-statistics parser [getDiskStatsMap], the bulk enumeration
    [getFilteredFsInfo] with its three public entry points, the device-number
    decoding [major]/[minor] with [GetDirFsDevice], and the directory-usage
    probe [GetDirUsage].

    Conventions.  Go's unsigned integers are [Z] with the wrap-around written
    out where the code computes; Go strings are byte strings ([string]);
    [map[string]T] is [gmap string T] and [map[string]struct{}] is
    [gset string]; a Go call returning [(value, error)] and able to panic is
    a [result]. *)

From Stdlib Require Import ZArith Lia.
From Stdlib Require Import Strings.String Strings.Ascii.
From stdpp Require Import base option list gmap strings fin_maps.

Local Open Scope Z_scope.
Local Open Scope string_scope.
Local Open Scope list_scope.

(** ** Errors and results *)

(** [syscall.Errno] values that matter to the code: only "no such file or
    directory" is told apart ([os.IsNotExist]). *)
Inductive Errno := ENOENT | EACCES | EIO.

Inductive NumErr := ErrSyntax | ErrRange.

(** Go [error] values.  [Errorf] keeps the format string and its arguments
    as [fmt.Errorf] received them; [NotFound] is a cache miss, as the
    specification names it. *)
Inductive error :=
| Errorf (format : string) (args : list fmtarg)
| PathError (op path : string) (errno : Errno)
| NumError (func num : string) (err : NumErr)
| SyscallError (errno : Errno)
| ExitError (status : Z)
| NotFound
with fmtarg :=
| ArgString (s : string)
| ArgStrings (l : list string)
| ArgError (e : error).

(** [os.IsNotExist] *)
Definition os_IsNotExist (err : error) : bool :=
  match err with
  | PathError _ _ ENOENT => true
  | _ => false
  end.

(** Outcome of a Go call: a value with a nil error, a non-nil error (the
    value is then nil), or a run-time panic. *)
Inductive result (A : Type) :=
| Ok (a : A)
| Err (e : error)
| Panic (msg : string).
Arguments Ok {A} a.
Arguments Err {A} e.
Arguments Panic {A} msg.

(** Sequencing: an error or a panic of the first call ends the function. *)
#[global] Instance result_bind : MBind result := λ A B k r,
  match r with
  | Ok a => k a
  | Err e => Err e
  | Panic msg => Panic msg
  end.

(** [l[i]]: indexing a slice panics out of range. *)
Definition index {A} (l : list A) (i : nat) : result A :=
  match l !! i with
  | Some a => Ok a
  | None => Panic "index out of range"
  end.

(** ** Data model ([fs/types.go]) *)

Record partition := {
  mountpoint : string;
  part_major : Z;
  part_minor : Z;
  fsType : string;
  blockSize : Z
}.

Record DeviceInfo := {
  Device : string;
  Major : Z;
  Minor : Z
}.

Definition FsType := string.
Definition ZFS : FsType := "zfs".
Definition DeviceMapper : FsType := "devicemapper".
Definition VFS : FsType := "vfs".

Record DiskStats := {
  ReadsCompleted : Z;
  ReadsMerged : Z;
  SectorsRead : Z;
  ReadTime : Z;
  WritesCompleted : Z;
  WritesMerged : Z;
  SectorsWritten : Z;
  WriteTime : Z;
  IoInProgress : Z;
  IoTime : Z;
  WeightedIoTime : Z
}.

(** [Fs] embeds [DeviceInfo]. *)
Record Fs := {
  fs_DeviceInfo : DeviceInfo;
  fs_Type : FsType;
  fs_Capacity : Z;
  fs_Free : Z;
  fs_Available : Z;
  fs_Inodes : Z;
  fs_InodesFree : Z;
  fs_DiskStats : DiskStats
}.

(** Go zero values, as [var fs Fs] declares them. *)
Definition DiskStats_zero : DiskStats :=
  {| ReadsCompleted := 0; ReadsMerged := 0; SectorsRead := 0; ReadTime := 0;
     WritesCompleted := 0; WritesMerged := 0; SectorsWritten := 0;
     WriteTime := 0; IoInProgress := 0; IoTime := 0; WeightedIoTime := 0 |}.

Definition DeviceInfo_zero : DeviceInfo :=
  {| Device := ""; Major := 0; Minor := 0 |}.

Definition Fs_zero : Fs :=
  {| fs_DeviceInfo := DeviceInfo_zero; fs_Type := ""; fs_Capacity := 0;
     fs_Free := 0; fs_Available := 0; fs_Inodes := 0; fs_InodesFree := 0;
     fs_DiskStats := DiskStats_zero |}.

(** ** Library functions the parser calls *)

(** Number of bytes of the white-space rune ([unicode.IsSpace]) that starts
    [s], or 0 when [s] does not start with one.  The ASCII spaces are
    tab, line feed, vertical tab, form feed, carriage return and blank; the
    others are the UTF-8 encodings of U+0085, U+00A0, U+1680,
    U+2000..U+200A, U+2028, U+2029, U+202F, U+205F and U+3000.  Each of
    them starts with a leading byte, which no well-formed encoding of
    another rune contains, so every occurrence is decoded as that rune. *)
Definition spaceWidth (s : string) : nat :=
  match s with
  | String c0 s1 =>
      let b0 := N_of_ascii c0 in
      if ((9 <=? b0) && (b0 <=? 13) || (b0 =? 32))%N then 1%nat
      else match s1 with
      | String c1 s2 =>
          let b1 := N_of_ascii c1 in
          if ((b0 =? 194) && ((b1 =? 133) || (b1 =? 160)))%N then 2%nat
          else match s2 with
          | String c2 _ =>
              let b2 := N_of_ascii c2 in
              if ((b0 =? 225) && (b1 =? 154) && (b2 =? 128)
                  || (b0 =? 226) && (b1 =? 128)
                     && ((128 <=? b2) && (b2 <=? 138) || (b2 =? 168)
                         || (b2 =? 169) || (b2 =? 175))
                  || (b0 =? 226) && (b1 =? 129) && (b2 =? 159)
                  || (b0 =? 227) && (b1 =? 128) && (b2 =? 128))%N
              then 3%nat else 0%nat
          | EmptyString => 0%nat
          end
      | EmptyString => 0%nat
      end
  | EmptyString => 0%nat
  end.

(** The field scanner: [cur] is the field being read, in reverse, when
    [infield]; [skip] counts the bytes of a white-space rune still to be
    dropped. *)
Fixpoint fieldsAux (s : string) (skip : nat) (infield : bool) (cur : string)
  : list string :=
  match s with
  | EmptyString => if infield then [String.rev cur] else []
  | String c s' =>
      match skip with
      | S k => fieldsAux s' k infield cur
      | O =>
          match spaceWidth s with
          | O => fieldsAux s' O true (String c cur)
          | S k =>
              if infield then String.rev cur :: fieldsAux s' k false ""
              else fieldsAux s' k false ""
          end
      end
  end.

(** [strings.Fields]: the maximal runs of non-space runes, in order. *)
Definition strings_Fields (s : string) : list string := fieldsAux s 0 false "".


(** Regular expressions over bytes, matched by derivatives. *)
Inductive regexp :=
| ReNone
| ReEmpty
| ReRange (lo hi : ascii)
| ReCat (r1 r2 : regexp)
| ReAlt (r1 r2 : regexp)
| ReStar (r : regexp).

Definition ReChar (c : ascii) : regexp := ReRange c c.
Definition RePlus (r : regexp) : regexp := ReCat r (ReStar r).

Fixpoint ReLit (s : string) : regexp :=
  match s with
  | EmptyString => ReEmpty
  | String c s' => ReCat (ReChar c) (ReLit s')
  end.

Fixpoint nullable (r : regexp) : bool :=
  match r with
  | ReNone => false
  | ReEmpty => true
  | ReRange _ _ => false
  | ReCat r1 r2 => nullable r1 && nullable r2
  | ReAlt r1 r2 => nullable r1 || nullable r2
  | ReStar _ => true
  end.

Fixpoint deriv (c : ascii) (r : regexp) : regexp :=
  match r with
  | ReNone => ReNone
  | ReEmpty => ReNone
  | ReRange lo hi =>
      if ((N_of_ascii lo <=? N_of_ascii c) && (N_of_ascii c <=? N_of_ascii hi))%N
      then ReEmpty else ReNone
  | ReCat r1 r2 =>
      if nullable r1 then ReAlt (ReCat (deriv c r1) r2) (deriv c r2)
      else ReCat (deriv c r1) r2
  | ReAlt r1 r2 => ReAlt (deriv c r1) (deriv c r2)
  | ReStar r1 => ReCat (deriv c r1) (ReStar r1)
  end.

Fixpoint matches (r : regexp) (s : string) : bool :=
  match s with
  | EmptyString => nullable r
  | String c s' => matches (deriv c r) s'
  end.

(** [\d] is [[0-9]]. *)
Definition ReDigit : regexp := ReRange "0" "9".

(** [regexp.MustCompile(`^(?:(?:s|xv)d[a-z]+\d*|dm-\d+)$`)]: the term is the
    pattern between [^] and [$]. *)
Definition partitionRegex : regexp :=
  ReAlt
    (ReCat (ReAlt (ReLit "s") (ReLit "xv"))
       (ReCat (ReLit "d") (ReCat (RePlus (ReRange "a" "z")) (ReStar ReDigit))))
    (ReCat (ReLit "dm-") (RePlus ReDigit)).

(** [Regexp.MatchString] for a pattern anchored by [^] and [$] (no
    multi-line flag): the whole text has to match. *)
Definition MatchString (re : regexp) (s : string) : bool := matches re s.

(** [path.Join]: the elements joined by a slash, then [path.Clean].  The
    code only joins ["/dev"] with a name that matched [partitionRegex]
    (lower-case letters, digits and [-]), which [Clean] leaves as it is. *)
Definition path_Join (dir name : string) : string := dir +:+ "/" +:+ name.

Definition maxUint64 : Z := (2 ^ 64 - 1)%Z.

(** The digit loop of [strconv.ParseUint(s, 10, 64)]: [n] is the value read
    so far. *)
Fixpoint parseDigits (s0 s : string) (n : Z) : result Z :=
  match s with
  | EmptyString => Ok n
  | String c s' =>
      let b := Z.of_N (N_of_ascii c) in
      if ((48 <=? b) && (b <=? 57))%Z then
        let d := (b - 48)%Z in
        if (maxUint64 / 10 + 1 <=? n)%Z then
          Err (NumError "ParseUint" s0 ErrRange)
        else
          let n1 := (n * 10 + d)%Z in
          if (maxUint64 <? n1)%Z then Err (NumError "ParseUint" s0 ErrRange)
          else parseDigits s0 s' n1
      else Err (NumError "ParseUint" s0 ErrSyntax)
  end.

(** [strconv.ParseUint(s, 10, 64)] *)
Definition strconv_ParseUint (s : string) : result Z :=
  match s with
  | EmptyString => Err (NumError "ParseUint" s ErrSyntax)
  | _ => parseDigits s s 0
  end.

(** ** The host's files *)

(** What [os.Open] finds at a path: a file, given by the lines a
    [bufio.Scanner] reads from it, or a failure other than absence.  A path
    that is not in the map does not exist. *)
Inductive node :=
| File (lines : list string)
| Unreadable (errno : Errno).

Definition FileSystem := gmap string node.

(** [os.Open], followed by scanning the lines. *)
Definition os_Open (fsys : FileSystem) (name : string) : result (list string) :=
  match fsys !! name with
  | None => Err (PathError "open" name ENOENT)
  | Some (Unreadable errno) => Err (PathError "open" name errno)
  | Some (File lines) => Ok lines
  end.

(** ** The disk-statistics parser *)

(** The inner loop of [getDiskStatsMap]:
    [stats[i-offset], err = strconv.ParseUint(words[i], 10, 64)] for the
    words from [offset] on, returning at the first error. *)
Fixpoint parseStats (words : list string) : result (list Z) :=
  match words with
  | [] => Ok []
  | w :: words' =>
      v ← strconv_ParseUint w;
      stats ← parseStats words';
      Ok (v :: stats)
  end.

(** One iteration of [for scanner.Scan()]: [None] is [continue], and
    otherwise the device name and its statistics are stored. *)
Definition scanLine (line : string) : result (option (string * DiskStats)) :=
  let words := strings_Fields line in
  w2 ← index words 2;
  if negb (MatchString partitionRegex w2) then Ok None
  else
    let deviceName := path_Join "/dev" w2 in
    let wordLength := length words in
    let offset := 3%nat in
    if (wordLength - offset <? 11)%nat then
      Err (Errorf "could not parse all 11 columns of /proc/diskstats" [])
    else
      stats ← parseStats (drop offset words);
      s0 ← index stats 0; s1 ← index stats 1; s2 ← index stats 2;
      s3 ← index stats 3; s4 ← index stats 4; s5 ← index stats 5;
      s6 ← index stats 6; s7 ← index stats 7; s8 ← index stats 8;
      s9 ← index stats 9; s10 ← index stats 10;
      Ok (Some (deviceName,
                {| ReadsCompleted := s0; ReadsMerged := s1; SectorsRead := s2;
                   ReadTime := s3; WritesCompleted := s4; WritesMerged := s5;
                   SectorsWritten := s6; WriteTime := s7; IoInProgress := s8;
                   IoTime := s9; WeightedIoTime := s10 |})).

(** The scanner loop, over the lines still to be read. *)
Fixpoint scanLoop (diskStatsMap : gmap string DiskStats) (lines : list string)
  : result (gmap string DiskStats) :=
  match lines with
  | [] => Ok diskStatsMap
  | line :: lines' =>
      r ← scanLine line;
      match r with
      | None => scanLoop diskStatsMap lines'
      | Some (deviceName, diskStats) =>
          scanLoop (<[deviceName := diskStats]> diskStatsMap) lines'
      end
  end.

Definition getDiskStatsMap (fsys : FileSystem) (diskStatsFile : string)
  : result (gmap string DiskStats) :=
  let diskStatsMap : gmap string DiskStats := ∅ in
  match os_Open fsys diskStatsFile with
  | Err err =>
      if os_IsNotExist err then Ok diskStatsMap else Err err
  | Panic msg => Panic msg
  | Ok lines => scanLoop diskStatsMap lines
  end.


(** ** The caches behind [RealFsInfo] *)

(** Modelled from the spec: the partition cache, whose implementation is not
    part of the sources.  It is the snapshot of entries (device path and
    partition record) in the order, stable for the snapshot, in which
    [ApplyOverPartitions] visits them. *)
Definition PartitionCache := list (string * partition).

(** Modelled from the spec: [ApplyOverPartitions], which "applies fn to
    every cached entry" and "aborts and propagates the first error fn
    returns".  The callback is a closure over the caller's variables, here
    the state [St] it reads and writes. *)
Fixpoint ApplyOverPartitions {St : Type} (cache : PartitionCache)
    (f : string → partition → St → St * option error) (st : St)
  : St * option error :=
  match cache with
  | [] => (st, None)
  | (d, p) :: cache' =>
      match f d p st with
      | (st', Some err) => (st', Some err)
      | (st', None) => ApplyOverPartitions cache' f st'
      end
  end.

(** Modelled from the spec: [DeviceInfoForMajorMinor], an "exact lookup by
    composite key" that "fails with NotFound if absent". *)
Fixpoint DeviceInfoForMajorMinor (cache : PartitionCache) (major minor : Z)
  : result DeviceInfo :=
  match cache with
  | [] => Err NotFound
  | (d, p) :: cache' =>
      if ((part_major p =? major) && (part_minor p =? minor))%Z
      then Ok {| Device := d; Major := major; Minor := minor |}
      else DeviceInfoForMajorMinor cache' major minor
  end.

(** What [FsStats] returns: type, capacity, free, available, inodes, free
    inodes, and the error. *)
Definition FsStatsResult : Type := FsType * Z * Z * Z * Z * Z * option error.

(** The statistics cache is used through its interface only; its
    implementation is a parameter. *)
Record FsStatsCache := {
  FsStats : string → partition → FsStatsResult
}.

Record RealFsInfo := {
  partitionCache : PartitionCache;
  fsStatsCache : FsStatsCache
}.

(** ** Bulk enumeration *)

Definition Fs_set_stats (fs : Fs) (ty : FsType) (capacity free available
    inodes inodesFree : Z) : Fs :=
  {| fs_DeviceInfo := fs_DeviceInfo fs; fs_Type := ty;
     fs_Capacity := capacity; fs_Free := free; fs_Available := available;
     fs_Inodes := inodes; fs_InodesFree := inodesFree;
     fs_DiskStats := fs_DiskStats fs |}.

Definition Fs_set_DeviceInfo (fs : Fs) (di : DeviceInfo) : Fs :=
  {| fs_DeviceInfo := di; fs_Type := fs_Type fs;
     fs_Capacity := fs_Capacity fs; fs_Free := fs_Free fs;
     fs_Available := fs_Available fs; fs_Inodes := fs_Inodes fs;
     fs_InodesFree := fs_InodesFree fs; fs_DiskStats := fs_DiskStats fs |}.

Definition Fs_set_DiskStats (fs : Fs) (ds : DiskStats) : Fs :=
  {| fs_DeviceInfo := fs_DeviceInfo fs; fs_Type := fs_Type fs;
     fs_Capacity := fs_Capacity fs; fs_Free := fs_Free fs;
     fs_Available := fs_Available fs; fs_Inodes := fs_Inodes fs;
     fs_InodesFree := fs_InodesFree fs; fs_DiskStats := ds |}.

(** The closure passed to [ApplyOverPartitions]; its state is the slice
    [filesystemsOut] it appends to. *)
Definition visit (self : RealFsInfo) (filter : string → partition → bool)
    (device : string) (partition : partition) (filesystemsOut : list Fs)
  : list Fs * option error :=
  if negb (filter device partition) then (filesystemsOut, None)
  else
    let fs := Fs_zero in
    let '(ty, capacity, free, available, inodes, inodesFree, err) :=
      FsStats (fsStatsCache self) device partition in
    let fs := Fs_set_stats fs ty capacity free available inodes inodesFree in
    match err with
    | Some _ =>
        (* Only log, don't return an error, move on to the next FS *)
        (filesystemsOut, None)
    | None =>
        (* [uint(partition.major)] converts a [uint] to [uint] *)
        let fs := Fs_set_DeviceInfo fs
                    {| Device := device; Major := part_major partition;
                       Minor := part_minor partition |} in
        ((filesystemsOut ++ [fs])%list, None)
    end.

(** The enumeration step of [getFilteredFsInfo]: the slice built and the
    error [ApplyOverPartitions] returned. *)
Definition enumerate (self : RealFsInfo) (filter : string → partition → bool)
  : list Fs * option error :=
  ApplyOverPartitions (partitionCache self) (visit self filter) [].

(** One iteration of [for _, fs := range filesystemsOut]: the state is the
    slice and the iteration variable [fs].  Go assigns to [fs] a copy of the
    element; the body assigns to the field [fs.DiskStats] of that variable,
    and nothing writes to the slice. *)
Definition rangeStep (diskStatsMap : gmap string DiskStats)
    (st : list Fs * Fs) (elem : Fs) : list Fs * Fs :=
  let '(filesystemsOut, _) := st in
  let fs := elem in
  match diskStatsMap !! Device (fs_DeviceInfo fs) with
  | None => (filesystemsOut, fs)
  | Some diskStats => (filesystemsOut, Fs_set_DiskStats fs diskStats)
  end.

(** The whole [range] loop; the slice is what the function goes on with. *)
Definition mergeDiskStats (diskStatsMap : gmap string DiskStats)
    (filesystemsOut : list Fs) : list Fs :=
  fst (fold_left (rangeStep diskStatsMap) filesystemsOut
         (filesystemsOut, Fs_zero)).

Definition getFilteredFsInfo (self : RealFsInfo) (fsys : FileSystem)
    (filter : string → partition → bool) (withIoStats : bool)
  : result (list Fs) :=
  let '(filesystemsOut, err) := enumerate self filter in
  match err with
  | Some err => Err err
  | None =>
      if withIoStats then
        diskStatsMap ← getDiskStatsMap fsys "/proc/diskstats";
        Ok (mergeDiskStats diskStatsMap filesystemsOut)
      else Ok filesystemsOut
  end.

Definition GetFsInfoForMounts (self : RealFsInfo) (fsys : FileSystem)
    (mountSet : gset string) (withIoStats : bool) : result (list Fs) :=
  getFilteredFsInfo self fsys
    (λ _ partition, bool_decide (mountpoint partition ∈ mountSet))
    withIoStats.

Definition GetFsInfoForDevices (self : RealFsInfo) (fsys : FileSystem)
    (deviceSet : gset string) (withIoStats : bool) : result (list Fs) :=
  getFilteredFsInfo self fsys
    (λ device _, bool_decide (device ∈ deviceSet))
    withIoStats.

Definition GetGlobalFsInfo (self : RealFsInfo) (fsys : FileSystem)
    (withIoStats : bool) : result (list Fs) :=
  getFilteredFsInfo self fsys (λ _ _, true) withIoStats.

(** ** Device numbers *)

(** Width of [uint] on 64-bit Linux. *)
Definition uintSize : Z := 64.

(** The conversion [uint(x)] of a [uint64]. *)
Definition to_uint (x : Z) : Z := x mod 2 ^ uintSize.

Definition major (devNumber : Z) : Z :=
  to_uint (Z.land (Z.shiftr devNumber 8) 4095).

Definition minor (devNumber : Z) : Z :=
  to_uint (Z.lor (Z.land devNumber 255)
                 (Z.land (Z.shiftr devNumber 12) 1048320)).

(** [syscall.Stat_t], of which the code reads [Dev]. *)
Record Stat_t := { Dev : Z }.

(** [syscall.Stat] is the host's: it fills the buffer or fails. *)
Definition GetDirFsDevice (self : RealFsInfo)
    (syscall_Stat : string → Stat_t + Errno) (dir : string)
  : result DeviceInfo :=
  match syscall_Stat dir with
  | inr errno =>
      Err (Errorf "stat failed on %s with error: %s"
             [ArgString dir; ArgError (SyscallError errno)])
  | inl buf =>
      let major := major (Dev buf) in
      let minor := minor (Dev buf) in
      deviceInfo ← DeviceInfoForMajorMinor (partitionCache self) major minor;
      Ok deviceInfo
  end.

(** ** Directory usage *)

(** How the host answers the calls on an [exec.Cmd]: the errors of
    [StdoutPipe], [StderrPipe] and [Start], what [ioutil.ReadAll] gets from
    the two pipes, and the error of [Wait] once the timer has been set to
    the given duration (the timer may have killed the process by then). *)
Record Cmd := {
  cmd_StdoutPipe : option error;
  cmd_StderrPipe : option error;
  cmd_Start : option error;
  cmd_stdout : string * option error;
  cmd_stderr : string;
  cmd_Wait : Z → option error
}.

(** The calls of [GetDirUsage] that act on the process, in program order. *)
Inductive event :=
| EvStart (args : list string)
| EvReadAll
| EvAfterFunc (timeout : Z)
| EvWait
| EvStop.

(** [GetDirUsage]: its result and the events it caused.  [exec_Command] is
    the host: the behaviour of the command with the given arguments. *)
Definition GetDirUsage (exec_Command : list string → Cmd) (dir : string)
    (timeout : Z) : result Z * list event :=
  if String.eqb dir "" then (Err (Errorf "invalid directory" []), [])
  else
    let args := ["nice"; "-n"; "19"; "du"; "-s"; dir] in
    let cmd := exec_Command args in
    match cmd_StdoutPipe cmd with
    | Some err =>
        (Err (Errorf "failed to setup stdout for cmd %v - %v"
                [ArgStrings args; ArgError err]), [])
    | None =>
    match cmd_StderrPipe cmd with
    | Some err =>
        (Err (Errorf "failed to setup stderr for cmd %v - %v"
                [ArgStrings args; ArgError err]), [])
    | None =>
    match cmd_Start cmd with
    | Some err =>
        (Err (Errorf "failed to exec du - %v" [ArgError err]), [EvStart args])
    | None =>
        let '(stdoutb, souterr) := cmd_stdout cmd in
        let stderrb := cmd_stderr cmd in
        let trace :=
          [EvStart args; EvReadAll; EvReadAll; EvAfterFunc timeout; EvWait;
           EvStop] in
        match cmd_Wait cmd timeout with
        | Some err =>
            (Err (Errorf
                    "du command failed on %s with output stdout: %s, stderr: %s - %v"
                    [ArgString dir; ArgString stdoutb; ArgString stderrb;
                     ArgError err]), trace)
        | None =>
            let stdout := stdoutb in
            match index (strings_Fields stdout) 0 with
            | Panic msg => (Panic msg, trace)
            | Err e => (Err e, trace)
            | Ok field =>
                match strconv_ParseUint field with
                | Ok usageInKb => (Ok ((usageInKb * 1024) mod 2 ^ 64)%Z, trace)
                | Err err =>
                    (Err (Errorf "cannot parse 'du' output %s - %s"
                            [ArgString stdout; ArgError err]), trace)
                | Panic msg => (Panic msg, trace)
                end
            end
        end
    end end end.

(** Whether a trace launched a command. *)
Definition launched (trace : list event) : bool :=
  existsb (λ ev, match ev with EvStart _ => true | _ => false end) trace.

(** ** The three bulk operations as one *)

Inductive BulkOp :=
| OpGlobal
| OpMounts (mountSet : gset string)
| OpDevices (deviceSet : gset string).

Definition runBulk (self : RealFsInfo) (fsys : FileSystem) (op : BulkOp)
    (withIoStats : bool) : result (list Fs) :=
  match op with
  | OpGlobal => GetGlobalFsInfo self fsys withIoStats
  | OpMounts mountSet => GetFsInfoForMounts self fsys mountSet withIoStats
  | OpDevices deviceSet => GetFsInfoForDevices self fsys deviceSet withIoStats
  end.

(** The filter each operation passes to [getFilteredFsInfo]. *)
Definition opFilter (op : BulkOp) (device : string) (p : partition) : bool :=
  match op with
  | OpGlobal => true
  | OpMounts mountSet => bool_decide (mountpoint p ∈ mountSet)
  | OpDevices deviceSet => bool_decide (device ∈ deviceSet)
  end.

(** The error of an [FsStats] answer. *)
Definition statErr (r : FsStatsResult) : option error := snd r.

(** The record one cache entry contributes: none when it is filtered out or
    its [FsStats] call fails. *)
Definition entryRecord (fss : FsStatsCache) (filter : string → partition → bool)
    (entry : string * partition) : option Fs :=
  let '(device, p) := entry in
  if filter device p then
    let '(ty, capacity, free, available, inodes, inodesFree, err) :=
      FsStats fss device p in
    match err with
    | Some _ => None
    | None =>
        Some {| fs_DeviceInfo := {| Device := device; Major := part_major p;
                                    Minor := part_minor p |};
                fs_Type := ty; fs_Capacity := capacity; fs_Free := free;
                fs_Available := available; fs_Inodes := inodes;
                fs_InodesFree := inodesFree; fs_DiskStats := DiskStats_zero |}
    end
  else None.

(** The records of a snapshot, entry by entry, in its order. *)
Definition records (fss : FsStatsCache) (filter : string → partition → bool)
    (cache : PartitionCache) : list Fs :=
  omap (entryRecord fss filter) cache.

(** ** Reading the statistics source by its lines *)

(** The value of a string of decimal digits, continuing from [n]; [None] when
    a byte is not a digit. *)
Fixpoint decimal (s : string) (n : Z) : option Z :=
  match s with
  | EmptyString => Some n
  | String c s' =>
      let b := Z.of_N (N_of_ascii c) in
      if ((48 <=? b) && (b <=? 57))%Z then decimal s' (n * 10 + (b - 48))
      else None
  end.

(** A token is the unsigned decimal numeral of [v], a 64-bit value. *)
Definition isUint64 (s : string) (v : Z) : Prop :=
  s ≠ "" ∧ decimal s 0 = Some v ∧ (v ≤ maxUint64)%Z.

(** What a well-formed line contributes: nothing when its third field is not
    a partition name, and otherwise the entry for the device, its eleven
    numbers in the order of the fields of [DiskStats]. *)
Inductive lineEntry (line : string) : option (string * DiskStats) → Prop :=
| lineEntry_skip a b name toks :
    strings_Fields line = a :: b :: name :: toks →
    MatchString partitionRegex name = false →
    lineEntry line None
| lineEntry_store a b name v0 v1 v2 v3 v4 v5 v6 v7 v8 v9 v10 toks :
    strings_Fields line = a :: b :: name :: toks →
    MatchString partitionRegex name = true →
    Forall2 isUint64 toks [v0; v1; v2; v3; v4; v5; v6; v7; v8; v9; v10] →
    lineEntry line
      (Some ("/dev/" +:+ name,
             {| ReadsCompleted := v0; ReadsMerged := v1; SectorsRead := v2;
                ReadTime := v3; WritesCompleted := v4; WritesMerged := v5;
                SectorsWritten := v6; WriteTime := v7; IoInProgress := v8;
                IoTime := v9; WeightedIoTime := v10 |})).

(** The map a list of entries builds: later entries replace earlier ones. *)
Definition entriesMap (entries : list (option (string * DiskStats)))
  : gmap string DiskStats :=
  fold_left (λ m e, match e with
                    | Some (k, v) => <[k := v]> m
                    | None => m
                    end) entries ∅.

(** ** Example host *)

Definition ex_partition : partition :=
  {| mountpoint := "/data"; part_major := 8; part_minor := 17;
     fsType := "ext4"; blockSize := 4096 |}.

Definition ex_root : partition :=
  {| mountpoint := "/"; part_major := 8; part_minor := 1;
     fsType := "ext4"; blockSize := 4096 |}.

(** A statistics cache that knows ["/dev/sdb1"] and fails for the rest. *)
Definition ex_stats : FsStatsCache :=
  {| FsStats := λ dev _,
       if String.eqb dev "/dev/sdb1"
       then (VFS, 1000, 400, 380, 100, 60, None)
       else ("", 0, 0, 0, 0, 0, Some (Errorf "statfs failed" [])) |}.

Definition ex_self : RealFsInfo :=
  {| partitionCache := [("/dev/sda1", ex_root); ("/dev/sdb1", ex_partition)];
     fsStatsCache := ex_stats |}.

Definition ex_line : string :=
  "   8      17 sdb1 40 0 280 223 7 0 22 108 0 330 330".

Definition ex_fsys : FileSystem := {[ "/proc/diskstats" := File [ex_line] ]}.

Definition ex_diskStats : DiskStats :=
  {| ReadsCompleted := 40; ReadsMerged := 0; SectorsRead := 280;
     ReadTime := 223; WritesCompleted := 7; WritesMerged := 0;
     SectorsWritten := 22; WriteTime := 108; IoInProgress := 0;
     IoTime := 330; WeightedIoTime := 330 |}.

Definition ex_record : Fs :=
  {| fs_DeviceInfo := {| Device := "/dev/sdb1"; Major := 8; Minor := 17 |};
     fs_Type := "vfs"; fs_Capacity := 1000; fs_Free := 400;
     fs_Available := 380; fs_Inodes := 100; fs_InodesFree := 60;
     fs_DiskStats := DiskStats_zero |}.

(** The statistics file of [ex_fsys] followed by a blank line. *)
Definition blank_fsys : FileSystem :=
  {[ "/proc/diskstats" := File [ex_line; ""] ]}.

(** ** The language of a regular expression *)

(** The strings a regular expression denotes, as the syntax of regular
    expressions defines them; [matches] is compared with it below. *)
Inductive lang : regexp → string → Prop :=
| lang_empty : lang ReEmpty ""
| lang_range lo hi c :
    (N_of_ascii lo ≤ N_of_ascii c)%N → (N_of_ascii c ≤ N_of_ascii hi)%N →
    lang (ReRange lo hi) (String c "")
| lang_cat r1 r2 s1 s2 :
    lang r1 s1 → lang r2 s2 → lang (ReCat r1 r2) (s1 +:+ s2)
| lang_alt_l r1 r2 s : lang r1 s → lang (ReAlt r1 r2) s
| lang_alt_r r1 r2 s : lang r2 s → lang (ReAlt r1 r2) s
| lang_star_nil r : lang (ReStar r) ""
| lang_star_cons r s1 s2 :
    lang r s1 → lang (ReStar r) s2 → lang (ReStar r) (s1 +:+ s2).

(** Every byte of [s] lies between [lo] and [hi]. *)
Fixpoint allIn (lo hi : ascii) (s : string) : bool :=
  match s with
  | EmptyString => true
  | String c s' =>
      ((N_of_ascii lo <=? N_of_ascii c) && (N_of_ascii c <=? N_of_ascii hi))%N
      && allIn lo hi s'
  end.

(** The device names the pattern describes: [sd] or [xvd], one or more
    lower-case letters and any number of digits; or [dm-] and one or more
    digits. *)
Definition partitionName (name : string) : Prop :=
  (∃ letters digits,
     letters ≠ "" ∧ allIn "a" "z" letters = true ∧
     allIn "0" "9" digits = true ∧
     (name = "sd" +:+ letters +:+ digits ∨
      name = "xvd" +:+ letters +:+ digits)) ∨
  (∃ digits,
     digits ≠ "" ∧ allIn "0" "9" digits = true ∧ name = "dm-" +:+ digits).

(** A byte a partition name can hold: a lower-case letter, a digit or [-]. *)
Definition nameByte (c : ascii) : bool :=
  let b := N_of_ascii c in
  ((97 <=? b) && (b <=? 122) || (48 <=? b) && (b <=? 57) || (b =? 45))%N.

Fixpoint allBytes (P : ascii → bool) (s : string) : bool :=
  match s with
  | EmptyString => true
  | String c s' => P c && allBytes P s'
  end.

(** ** Labels and mount points *)

(** Modelled from the spec: the label index of the partition cache, a
    "mapping from filesystem label to device path", as its entries (label
    and device) in the order in which [ApplyOverLabels] visits them.  The
    record [RealFsInfo] above holds the partitions; the functions on labels
    take the index of the same cache. *)
Definition LabelIndex := list (string * string).

(** Modelled from the spec: [ApplyOverLabels], with the "same iteration
    contract" as [ApplyOverPartitions], "over the label index". *)
Fixpoint ApplyOverLabels {St : Type} (labelIndex : LabelIndex)
    (f : string → string → St → St * option error) (st : St)
  : St * option error :=
  match labelIndex with
  | [] => (st, None)
  | (label, device) :: labelIndex' =>
      match f label device st with
      | (st', Some err) => (st', Some err)
      | (st', None) => ApplyOverLabels labelIndex' f st'
      end
  end.

(** Modelled from the spec: [DeviceNameForLabel], a "label→device lookup;
    NotFound if absent". *)
Fixpoint DeviceNameForLabel (labelIndex : LabelIndex) (label : string)
  : result string :=
  match labelIndex with
  | [] => Err NotFound
  | (l, device) :: labelIndex' =>
      if String.eqb l label then Ok device
      else DeviceNameForLabel labelIndex' label
  end.

(** Modelled from the spec: [PartitionForDevice], an "exact lookup by device
    path" that "fails with NotFound if absent". *)
Fixpoint PartitionForDevice (cache : PartitionCache) (device : string)
  : result partition :=
  match cache with
  | [] => Err NotFound
  | (d, p) :: cache' =>
      if String.eqb d device then Ok p else PartitionForDevice cache' device
  end.

Definition GetDeviceForLabel (labelIndex : LabelIndex) (label : string)
  : result string :=
  DeviceNameForLabel labelIndex label.

(** The closure of [GetLabelsForDevice] appends to the slice [labels] and
    returns nil; what [ApplyOverLabels] returns is not looked at. *)
Definition GetLabelsForDevice (labelIndex : LabelIndex) (device : string)
  : result (list string) :=
  let labels : list string := [] in
  let '(labels, _) :=
    ApplyOverLabels labelIndex
      (λ label deviceForLabel labels,
         if String.eqb device deviceForLabel
         then (labels ++ [label], None)
         else (labels, None))
      labels in
  Ok labels.

Definition GetMountpointForDevice (self : RealFsInfo) (dev : string)
  : result string :=
  match PartitionForDevice (partitionCache self) dev with
  | Err err => Err err
  | Panic msg => Panic msg
  | Ok p => Ok (mountpoint p)
  end.

(** ** More example values *)

(** The command line of [GetDirUsage] for a directory. *)
Definition du_args (dir : string) : list string :=
  ["nice"; "-n"; "19"; "du"; "-s"; dir].

(** A [du] that prints 1234 kilobytes and exits with status 0. *)
Definition ex_cmd : Cmd :=
  {| cmd_StdoutPipe := None; cmd_StderrPipe := None; cmd_Start := None;
     cmd_stdout := ("1234	/data", None); cmd_stderr := "";
     cmd_Wait := λ _, None |}.

(** A [stat] that knows one directory, on the device 8:17. *)
Definition ex_stat (dir : string) : Stat_t + Errno :=
  if String.eqb dir "/data/db" then inl {| Dev := 2065 |} else inr ENOENT.

Definition ex_labels : LabelIndex :=
  [("root", "/dev/sda1"); ("data", "/dev/sdb1"); ("docker", "/dev/sdb1")].

(** Statistics files with one partition line that is not as it should be:
    a twelfth field that is no number, and too few fields. *)
Definition bad_fsys : FileSystem :=
  {[ "/proc/diskstats" :=
       File ["8 17 sdb1 40 0 280 223 7 0 22 108 0 330 330 x 5"] ]}.

Definition few_fsys : FileSystem :=
  {[ "/proc/diskstats" := File ["8 17 sdb1 40 0 x"] ]}.

(** The statistics file of [ex_fsys] with the line of a loop device. *)
Definition loop_fsys : FileSystem :=
  {[ "/proc/diskstats" := File [ex_line; "   7       0 loop0 0 0 0 0 0 0 0 0 0 0 0"] ]}.

(** The device names that the lines of a statistics file give: the third
    fields that the pattern accepts, line by line. *)
Definition partitionNames (lines : list string) : list string :=
  omap (λ line,
          match strings_Fields line !! 2%nat with
          | Some name =>
              if MatchString partitionRegex name then Some name else None
          | None => None
          end) lines.

(** ** Directory usage in time *)

(** A command as the host runs it in time, counted from [Start]: the errors
    of [StdoutPipe], [StderrPipe] and [Start]; what the command writes to
    each pipe and when the pipe reaches its end of file ([None]: never);
    and when the process exits by itself, with the error [Wait] returns for
    that exit ([None]: the process does not exit by itself). *)
Record TimedCmd := {
  t_StdoutPipe : option error;
  t_StderrPipe : option error;
  t_Start : option error;
  t_stdout : string * option error;
  t_stdout_eof : option Z;
  t_stderr : string;
  t_stderr_eof : option Z;
  t_exit : option (Z * option error)
}.

(** How a call ends: it returns a result at some time, the process having
    been killed by the timer or not; or it never returns. *)
Inductive outcome :=
| Returns (r : result Z) (at_time : Z) (killed : bool)
| Blocks.

(** [ioutil.ReadAll] on a pipe returns at the end of file of the pipe, and
    at once when that is past; the time at which it returns. *)
Definition readAllUntil (now : Z) (eof : option Z) : option Z :=
  match eof with
  | Some t => Some (Z.max now t)
  | None => None
  end.

(** [cmd.Wait()] called at [now], with the timer to fire at [deadline]: the
    time at which it returns, its error, and whether the timer killed the
    process.  A process that exits by itself before the timer fires (or has
    exited before [Wait] is called) gives its own status, and the timer is
    stopped; otherwise the function of the timer kills the process, and
    [Wait] returns the error of a killed process. *)
Definition waitUntil (now deadline : Z) (exit : option (Z * option error))
  : Z * option error * bool :=
  match exit with
  | Some (te, status) =>
      if ((te <=? now) || (te <? deadline))%Z
      then (Z.max now te, status, false)
      else (deadline, Some (ExitError (-1)), true)
  | None => (deadline, Some (ExitError (-1)), true)
  end.

(** [GetDirUsage] with the clock: the statements in their order, each
    blocking call moving the time to the moment at which it returns.
    [time.AfterFunc(timeout, ...)] is reached after both [ioutil.ReadAll]
    calls, and its timer fires [timeout] later (at once for a timeout that
    is not positive). *)
Definition GetDirUsageTimed (exec_Command : list string → TimedCmd)
    (dir : string) (timeout : Z) : outcome :=
  if String.eqb dir "" then Returns (Err (Errorf "invalid directory" [])) 0 false
  else
    let args := ["nice"; "-n"; "19"; "du"; "-s"; dir] in
    let cmd := exec_Command args in
    match t_StdoutPipe cmd with
    | Some err =>
        Returns (Err (Errorf "failed to setup stdout for cmd %v - %v"
                        [ArgStrings args; ArgError err])) 0 false
    | None =>
    match t_StderrPipe cmd with
    | Some err =>
        Returns (Err (Errorf "failed to setup stderr for cmd %v - %v"
                        [ArgStrings args; ArgError err])) 0 false
    | None =>
    match t_Start cmd with
    | Some err =>
        Returns (Err (Errorf "failed to exec du - %v" [ArgError err])) 0 false
    | None =>
        let '(stdoutb, souterr) := t_stdout cmd in
        match readAllUntil 0 (t_stdout_eof cmd) with
        | None => Blocks
        | Some t1 =>
        let stderrb := t_stderr cmd in
        match readAllUntil t1 (t_stderr_eof cmd) with
        | None => Blocks
        | Some t2 =>
        let deadline := (t2 + Z.max 0 timeout)%Z in
        let '(t3, err, killed) := waitUntil t2 deadline (t_exit cmd) in
        match err with
        | Some err =>
            Returns
              (Err (Errorf
                      "du command failed on %s with output stdout: %s, stderr: %s - %v"
                      [ArgString dir; ArgString stdoutb; ArgString stderrb;
                       ArgError err])) t3 killed
        | None =>
            let stdout := stdoutb in
            match index (strings_Fields stdout) 0 with
            | Panic msg => Returns (Panic msg) t3 killed
            | Err e => Returns (Err e) t3 killed
            | Ok field =>
                match strconv_ParseUint field with
                | Ok usageInKb =>
                    Returns (Ok ((usageInKb * 1024) mod 2 ^ 64)%Z) t3 killed
                | Err err =>
                    Returns (Err (Errorf "cannot parse 'du' output %s - %s"
                                    [ArgString stdout; ArgError err])) t3 killed
                | Panic msg => Returns (Panic msg) t3 killed
                end
            end
        end
        end end
    end end end.


(** A [du] that needs 2000 units of time: it writes 5 kilobytes, closes its
    pipes and exits with status 0 at 2000. *)
Definition slow_du : TimedCmd :=
  {| t_StdoutPipe := None; t_StderrPipe := None; t_Start := None;
     t_stdout := ("5	/data", None); t_stdout_eof := Some 2000;
     t_stderr := ""; t_stderr_eof := Some 2000;
     t_exit := Some (2000, None) |}.

(** A command that never writes, never closes its pipes and never exits. *)
Definition stuck_du : TimedCmd :=
  {| t_StdoutPipe := None; t_StderrPipe := None; t_Start := None;
     t_stdout := ("", None); t_stdout_eof := None;
     t_stderr := ""; t_stderr_eof := None;
     t_exit := None |}.

(** A command that closes its pipes at once and then runs on for ever. *)
Definition detached_du : TimedCmd :=
  {| t_StdoutPipe := None; t_StderrPipe := None; t_Start := None;
     t_stdout := ("", None); t_stdout_eof := Some 0;
     t_stderr := ""; t_stderr_eof := Some 0;
     t_exit := None |}.

(** * Properties *)

Lemma records_cons fss filter entry cache :
  records fss filter (entry :: cache) =
    match entryRecord fss filter entry with
    | Some fs => fs :: records fss filter cache
    | None => records fss filter cache
    end.
Proof. reflexivity. Qed.

(** Take an [FsStats] answer apart into its seven components. *)
Ltac destruct_FsStats r :=
  let ty := fresh "ty" in
  let cap := fresh "cap" in
  let free := fresh "free" in
  let avail := fresh "avail" in
  let inodes := fresh "inodes" in
  let inodesFree := fresh "inodesFree" in
  let err := fresh "err" in
  destruct r as [[[[[[ty cap] free] avail] inodes] inodesFree] [err|]].

Section Enumeration.

Variable self : RealFsInfo.
Variable filter : string → partition → bool.

Lemma visit_entryRecord device p acc :
  visit self filter device p acc =
    (match entryRecord (fsStatsCache self) filter (device, p) with
     | Some fs => (acc ++ [fs])%list
     | None => acc
     end, None).
Proof.
  unfold visit, entryRecord.
  destruct (filter device p); simpl; [|reflexivity].
  destruct_FsStats (FsStats (fsStatsCache self) device p); reflexivity.
Qed.

Lemma ApplyOverPartitions_visit cache acc :
  ApplyOverPartitions cache (visit self filter) acc =
    ((acc ++ records (fsStatsCache self) filter cache)%list, None).
Proof.
  revert acc. induction cache as [|[d p] cache IH]; intros acc.
  - simpl. by rewrite app_nil_r.
  - cbn [ApplyOverPartitions].
    rewrite visit_entryRecord, IH, records_cons.
    destruct (entryRecord (fsStatsCache self) filter (d, p)).
    + by rewrite <- app_assoc.
    + reflexivity.
Qed.

(** The enumeration step never fails, and builds the records of the
    entries that pass the filter and whose statistics were obtained. *)
Lemma enumerate_records :
  enumerate self filter =
    (records (fsStatsCache self) filter (partitionCache self), None).
Proof. unfold enumerate. by rewrite ApplyOverPartitions_visit. Qed.

(** The [range] loop leaves the slice as it found it. *)
Lemma fold_rangeStep_fst m elems st :
  fst (fold_left (rangeStep m) elems st) = fst st.
Proof.
  revert st. induction elems as [|e elems IH]; intros [out v]; simpl.
  - reflexivity.
  - rewrite IH. unfold rangeStep.
    by destruct (m !! Device (fs_DeviceInfo e)).
Qed.

Lemma mergeDiskStats_id m filesystemsOut :
  mergeDiskStats m filesystemsOut = filesystemsOut.
Proof. unfold mergeDiskStats. by rewrite fold_rangeStep_fst. Qed.

Lemma getFilteredFsInfo_records fsys withIoStats :
  getFilteredFsInfo self fsys filter withIoStats =
    let out := records (fsStatsCache self) filter (partitionCache self) in
    if withIoStats then
      match getDiskStatsMap fsys "/proc/diskstats" with
      | Ok _ => Ok out
      | Err e => Err e
      | Panic msg => Panic msg
      end
    else Ok out.
Proof.
  unfold getFilteredFsInfo. rewrite enumerate_records. simpl.
  destruct withIoStats; [|reflexivity].
  destruct (getDiskStatsMap fsys "/proc/diskstats"); simpl; try reflexivity.
  by rewrite mergeDiskStats_id.
Qed.

End Enumeration.

Lemma runBulk_getFilteredFsInfo self fsys op withIoStats :
  runBulk self fsys op withIoStats =
    getFilteredFsInfo self fsys (opFilter op) withIoStats.
Proof. by destruct op. Qed.

Lemma runBulk_Ok_records self fsys op withIoStats out :
  runBulk self fsys op withIoStats = Ok out →
  out = records (fsStatsCache self) (opFilter op) (partitionCache self).
Proof.
  rewrite runBulk_getFilteredFsInfo, getFilteredFsInfo_records. simpl.
  destruct withIoStats.
  - destruct (getDiskStatsMap fsys "/proc/diskstats"); congruence.
  - congruence.
Qed.

Lemma entryRecord_Some fss filter d p fs :
  entryRecord fss filter (d, p) = Some fs →
  filter d p = true ∧ statErr (FsStats fss d p) = None ∧
  fs_DeviceInfo fs =
    {| Device := d; Major := part_major p; Minor := part_minor p |} ∧
  fs_DiskStats fs = DiskStats_zero.
Proof.
  unfold entryRecord, statErr.
  destruct (filter d p); [|discriminate].
  destruct_FsStats (FsStats fss d p); simpl; [discriminate|].
  intros [= <-]. done.
Qed.

Lemma entryRecord_failed fss filter d p e :
  statErr (FsStats fss d p) = Some e → entryRecord fss filter (d, p) = None.
Proof.
  unfold entryRecord, statErr.
  destruct (filter d p); [|reflexivity].
  destruct_FsStats (FsStats fss d p); simpl; [reflexivity|discriminate].
Qed.

Lemma records_skip fss filter pre d p post e :
  statErr (FsStats fss d p) = Some e →
  records fss filter (pre ++ (d, p) :: post) = records fss filter (pre ++ post).
Proof.
  intros He. unfold records. rewrite !omap_app.
  change (omap (entryRecord fss filter) ((d, p) :: post))
    with (records fss filter ((d, p) :: post)).
  by rewrite records_cons, (entryRecord_failed _ _ _ _ _ He).
Qed.

(** ** The parser, line by line *)

Lemma bind_Ok {A B} (r : result A) (k : A → result B) a :
  r = Ok a → (r ≫= k) = k a.
Proof. by intros ->. Qed.

Lemma scanLoop_app m pre post :
  scanLoop m (pre ++ post) = (scanLoop m pre ≫= λ m', scanLoop m' post).
Proof.
  revert m. induction pre as [|l pre IH]; intros m; [reflexivity|].
  cbn [app scanLoop].
  destruct (scanLine l) as [[[k v]|]| |]; simpl; auto.
Qed.

(** A line of fewer than three fields: [words[2]] is out of range. *)
Lemma scanLine_short line :
  (length (strings_Fields line) < 3)%nat →
  scanLine line = Panic "index out of range".
Proof.
  intros Hlen. unfold scanLine, index.
  rewrite (lookup_ge_None_2 (strings_Fields line) 2) by lia.
  reflexivity.
Qed.

(** A line whose third field is not a partition name is skipped. *)
Lemma scanLine_skip line a b name toks :
  strings_Fields line = a :: b :: name :: toks →
  MatchString partitionRegex name = false →
  scanLine line = Ok None.
Proof. intros Hf Hm. unfold scanLine. rewrite Hf. simpl. by rewrite Hm. Qed.

(** A line with a partition name and fewer than eleven fields after it. *)
Lemma scanLine_few line a b name toks :
  strings_Fields line = a :: b :: name :: toks →
  MatchString partitionRegex name = true →
  (length toks < 11)%nat →
  scanLine line =
    Err (Errorf "could not parse all 11 columns of /proc/diskstats" []).
Proof.
  intros Hf Hm Hlen. unfold scanLine. rewrite Hf.
  cbn [index lookup list_lookup mbind result_bind length drop].
  rewrite Hm. cbn [negb].
  replace (S (S (S (length toks))) - 3 <? 11)%nat with true; [reflexivity|].
  symmetry. apply Nat.ltb_lt. lia.
Qed.

Lemma parseStats_length toks vs :
  parseStats toks = Ok vs → length vs = length toks.
Proof.
  revert vs. induction toks as [|t toks IH]; intros vs; simpl.
  - by intros [= <-].
  - destruct (strconv_ParseUint t); simpl; try discriminate.
    destruct (parseStats toks); simpl; try discriminate.
    intros [= <-]. simpl. f_equal. by apply IH.
Qed.

(** A line with a partition name and at least eleven numbers after it: the
    first eleven go to the fields of [DiskStats] in their order. *)
Lemma scanLine_store line a b name toks v0 v1 v2 v3 v4 v5 v6 v7 v8 v9 v10 more :
  strings_Fields line = a :: b :: name :: toks →
  MatchString partitionRegex name = true →
  parseStats toks =
    Ok (v0 :: v1 :: v2 :: v3 :: v4 :: v5 :: v6 :: v7 :: v8 :: v9 :: v10 :: more) →
  scanLine line =
    Ok (Some ("/dev/" +:+ name,
              {| ReadsCompleted := v0; ReadsMerged := v1; SectorsRead := v2;
                 ReadTime := v3; WritesCompleted := v4; WritesMerged := v5;
                 SectorsWritten := v6; WriteTime := v7; IoInProgress := v8;
                 IoTime := v9; WeightedIoTime := v10 |})).
Proof.
  intros Hf Hm Hp.
  pose proof (parseStats_length _ _ Hp) as Hlen. simpl in Hlen.
  unfold scanLine. rewrite Hf.
  cbn [index lookup list_lookup mbind result_bind length drop].
  rewrite Hm. cbn [negb].
  replace (S (S (S (length toks))) - 3 <? 11)%nat with false.
  - rewrite drop_0, Hp. reflexivity.
  - symmetry. apply Nat.ltb_ge. lia.
Qed.

(** ** [strconv.ParseUint] reads unsigned decimal numerals *)

Lemma decimal_ge s n v : (0 ≤ n)%Z → decimal s n = Some v → (n ≤ v)%Z.
Proof.
  revert n. induction s as [|c s IH]; intros n Hn; simpl.
  - intros [= <-]. lia.
  - destruct ((48 <=? Z.of_N (N_of_ascii c)) && (Z.of_N (N_of_ascii c) <=? 57))%Z
      eqn:Hd; [|discriminate].
    apply andb_prop in Hd as [H1%Z.leb_le H2%Z.leb_le].
    intros Hv. apply IH in Hv; lia.
Qed.

Lemma parseDigits_decimal s0 s n v :
  (0 ≤ n ≤ maxUint64)%Z →
  parseDigits s0 s n = Ok v ↔ decimal s n = Some v ∧ (v ≤ maxUint64)%Z.
Proof.
  revert n. induction s as [|c s IH]; intros n Hn; simpl.
  - split; [intros [= <-]; split; [done|lia] | intros [[= <-] _]; done].
  - destruct ((48 <=? Z.of_N (N_of_ascii c)) && (Z.of_N (N_of_ascii c) <=? 57))%Z
      eqn:Hd; [|split; [discriminate | intros [? _]; discriminate]].
    apply andb_prop in Hd as [H1%Z.leb_le H2%Z.leb_le].
    change (maxUint64 / 10 + 1)%Z with 1844674407370955162.
    unfold maxUint64 in *.
    destruct (1844674407370955162 <=? n)%Z eqn:Hc.
    + apply Z.leb_le in Hc. split; [discriminate|].
      intros [Hv Hle]. apply decimal_ge in Hv; lia.
    + apply Z.leb_gt in Hc.
      destruct (2 ^ 64 - 1 <? n * 10 + (Z.of_N (N_of_ascii c) - 48))%Z eqn:Ho.
      * apply Z.ltb_lt in Ho. split; [discriminate|].
        intros [Hv Hle]. apply decimal_ge in Hv; lia.
      * apply Z.ltb_ge in Ho. apply IH. lia.
Qed.

(** [strconv.ParseUint] succeeds exactly on the unsigned decimal numerals of
    64-bit values, and returns the value. *)
Lemma strconv_ParseUint_spec s v :
  strconv_ParseUint s = Ok v ↔ isUint64 s v.
Proof.
  unfold strconv_ParseUint, isUint64. destruct s as [|c s].
  - split; [discriminate | intros [? _]; done].
  - rewrite parseDigits_decimal by (unfold maxUint64; lia).
    split; [intros [? ?]; by repeat split | intros (_ & ? & ?); by split].
Qed.

Lemma parseStats_Forall2 toks vs :
  Forall2 isUint64 toks vs → parseStats toks = Ok vs.
Proof.
  induction 1 as [|t v toks vs Ht _ IH]; simpl; [reflexivity|].
  apply strconv_ParseUint_spec in Ht. by rewrite Ht, IH.
Qed.

(** ** Sources whose every line has a third field *)

Lemma lineEntry_scanLine line e : lineEntry line e → scanLine line = Ok e.
Proof.
  destruct 1 as [a b name toks Hf Hm | a b name v0 v1 v2 v3 v4 v5 v6 v7 v8 v9 v10 toks Hf Hm Ht].
  - by eapply scanLine_skip.
  - eapply scanLine_store; eauto using parseStats_Forall2.
Qed.

Lemma scanLoop_entries m lines entries :
  Forall2 lineEntry lines entries →
  scanLoop m lines =
    Ok (fold_left (λ m e, match e with
                          | Some (k, v) => <[k := v]> m
                          | None => m
                          end) entries m).
Proof.
  intros H. revert m. induction H as [|l e lines entries Hl _ IH]; intros m.
  - reflexivity.
  - cbn [scanLoop fold_left]. rewrite (lineEntry_scanLine _ _ Hl). simpl.
    destruct e as [[k v]|]; apply IH.
Qed.

(** On a source whose every line has a third field, and eleven numerals
    after it when that field is a partition name, the parser returns the map
    of the lines' entries. *)
Lemma getDiskStatsMap_wellformed fsys file lines entries :
  fsys !! file = Some (File lines) →
  Forall2 lineEntry lines entries →
  getDiskStatsMap fsys file = Ok (entriesMap entries).
Proof.
  intros Hfile H. unfold getDiskStatsMap, os_Open. rewrite Hfile.
  by apply scanLoop_entries.
Qed.

Lemma fold_entries_lookup_notin entries (m : gmap string DiskStats) k :
  (∀ v, Some (k, v) ∉ entries) →
  fold_left (λ m e, match e with
                    | Some (k, v) => <[k := v]> m
                    | None => m
                    end) entries m !! k = m !! k.
Proof.
  revert m. induction entries as [|e entries IH]; intros m Hk; [reflexivity|].
  cbn [fold_left]. rewrite IH.
  - destruct e as [[k' v']|]; [|reflexivity].
    apply lookup_insert_ne. intros ->. apply (Hk v'). left.
  - intros v Hin. apply (Hk v). by right.
Qed.

(** The entry of the last line for a device is the device's entry. *)
Lemma entriesMap_lookup_last pre k v post :
  (∀ v', Some (k, v') ∉ post) →
  entriesMap (pre ++ Some (k, v) :: post) !! k = Some v.
Proof.
  intros Hk. unfold entriesMap. rewrite fold_left_app. cbn [fold_left].
  rewrite fold_entries_lookup_notin by done. apply lookup_insert_eq.
Qed.

(** Every entry of the map is the entry of some line. *)
Lemma entriesMap_lookup_Some entries k v :
  entriesMap entries !! k = Some v → Some (k, v) ∈ entries.
Proof.
  unfold entriesMap.
  enough (∀ m : gmap string DiskStats,
    fold_left (λ m e, match e with
                      | Some (k, v) => <[k := v]> m
                      | None => m
                      end) entries m !! k = Some v →
    m !! k = Some v ∨ Some (k, v) ∈ entries) as H.
  { intros Hl. destruct (H _ Hl) as [He|]; [|done].
    by rewrite lookup_empty in He. }
  induction entries as [|e entries IH]; intros m Hl; [by left|].
  cbn [fold_left] in Hl. apply IH in Hl as [Hl|Hl]; [|right; by right].
  destruct e as [[k' v']|]; [|by left].
  destruct (decide (k' = k)) as [->|Hne].
  - rewrite lookup_insert_eq in Hl. injection Hl as ->. right. left.
  - rewrite lookup_insert_ne in Hl by done. by left.
Qed.

Lemma strconv_ParseUint_no_panic s msg : strconv_ParseUint s ≠ Panic msg.
Proof.
  unfold strconv_ParseUint. destruct s as [|c s]; [discriminate|].
  generalize 0%Z as n. generalize (String c s) at 2 as t.
  induction t as [|c' t IH]; intros n; simpl; [discriminate|].
  repeat case_match; try discriminate. apply IH.
Qed.

Lemma parseStats_no_panic toks msg : parseStats toks ≠ Panic msg.
Proof.
  induction toks as [|t toks IH]; simpl; [discriminate|].
  destruct (strconv_ParseUint t) eqn:Ht; simpl; try discriminate.
  - destruct (parseStats toks); simpl; congruence.
  - by apply strconv_ParseUint_no_panic in Ht.
Qed.

(** With a third field on the line, the iteration does not panic. *)
Lemma scanLine_no_panic line msg :
  (3 ≤ length (strings_Fields line))%nat → scanLine line ≠ Panic msg.
Proof.
  intros Hlen. unfold scanLine.
  destruct (strings_Fields line) as [|a [|b [|name toks]]];
    simpl in Hlen; try lia.
  cbn [index lookup list_lookup mbind result_bind length drop].
  destruct (MatchString partitionRegex name); simpl; [|discriminate].
  destruct (length toks - 0 <? 11)%nat eqn:Hn; [discriminate|].
  apply Nat.ltb_ge in Hn. rewrite drop_0.
  destruct (parseStats toks) as [vs| |] eqn:Hp; simpl; try discriminate.
  - apply parseStats_length in Hp.
    do 11 (destruct vs as [|? vs]; [simpl in Hp; lia|]). discriminate.
  - by apply parseStats_no_panic in Hp.
Qed.

Lemma scanLoop_few lines l a b name toks :
  Forall (λ l, (3 ≤ length (strings_Fields l))%nat) lines →
  l ∈ lines →
  strings_Fields l = a :: b :: name :: toks →
  MatchString partitionRegex name = true →
  (length toks < 11)%nat →
  ∀ m, ∃ e, scanLoop m lines = Err e.
Proof.
  intros Hall Hin Hf Hm Hlen.
  induction lines as [|l' lines IH]; intros m; [by apply elem_of_nil in Hin|].
  apply Forall_cons in Hall as [Hl' Hall].
  cbn [scanLoop].
  destruct (scanLine l') as [r|e|msg] eqn:Hs; simpl.
  - apply elem_of_cons in Hin as [->|Hin].
    + rewrite (scanLine_few _ _ _ _ _ Hf Hm Hlen) in Hs. discriminate.
    + destruct r as [[k v]|]; by apply IH.
  - eauto.
  - by apply scanLine_no_panic in Hs.
Qed.

(** On a source whose every line has a third field, a partition line with
    fewer than eleven fields after the name makes the call fail. *)
Lemma getDiskStatsMap_few fsys file lines l a b name toks :
  fsys !! file = Some (File lines) →
  Forall (λ l, (3 ≤ length (strings_Fields l))%nat) lines →
  l ∈ lines →
  strings_Fields l = a :: b :: name :: toks →
  MatchString partitionRegex name = true →
  (length toks < 11)%nat →
  ∃ e, getDiskStatsMap fsys file = Err e.
Proof.
  intros Hfile Hall Hin Hf Hm Hlen.
  unfold getDiskStatsMap, os_Open. rewrite Hfile.
  by eapply scanLoop_few.
Qed.

(** ** The claims *)

(** No record of a bulk operation carries disk statistics, with or without
    [withIoStats]: the [range] loop writes them to its own variable. *)
Lemma runBulk_DiskStats_zero self fsys op withIoStats out fs :
  runBulk self fsys op withIoStats = Ok out →
  fs ∈ out →
  fs_DiskStats fs = DiskStats_zero.
Proof.
  intros Hrun Hin. apply runBulk_Ok_records in Hrun as ->.
  unfold records in Hin. apply list_elem_of_omap in Hin as ([d p] & _ & He).
  by apply entryRecord_Some in He as (_ & _ & _ & ?).
Qed.

(** C1: with [withIoStats = true], on a host whose statistics file has an
    entry for the device of the one record returned, each of the three bulk
    operations returns the record with the zero [DiskStats], not with the
    entry that [getDiskStatsMap] parsed for the device. *)
Theorem C1_diskstats_not_merged :
  GetGlobalFsInfo ex_self ex_fsys true = Ok [ex_record] ∧
  GetFsInfoForMounts ex_self ex_fsys {["/data"]} true = Ok [ex_record] ∧
  GetFsInfoForDevices ex_self ex_fsys {["/dev/sdb1"]} true = Ok [ex_record] ∧
  (getDiskStatsMap ex_fsys "/proc/diskstats"
     ≫= λ m, Ok (m !! Device (fs_DeviceInfo ex_record))) = Ok (Some ex_diskStats) ∧
  fs_DiskStats ex_record = DiskStats_zero ∧
  ex_diskStats ≠ DiskStats_zero.
Proof.
  repeat split; try (vm_compute; reflexivity). discriminate.
Qed.

(** C2: a statistics source made of a well-formed partition line and a blank
    line satisfies the condition of the claim (every line whose third field
    is a partition name has exactly eleven unsigned decimal numerals after
    it), and parsing it panics instead of returning a map; without the blank
    line the same source gives the map with the entry of the device. *)
Theorem C2_blank_line_no_map :
  (∀ l a b name toks,
     l ∈ [ex_line; ""] →
     strings_Fields l = a :: b :: name :: toks →
     MatchString partitionRegex name = true →
     ∃ vs, length vs = 11%nat ∧ Forall2 isUint64 toks vs) ∧
  getDiskStatsMap blank_fsys "/proc/diskstats" = Panic "index out of range" ∧
  getDiskStatsMap ex_fsys "/proc/diskstats" = Ok {[ "/dev/sdb1" := ex_diskStats ]}.
Proof.
  split; [|split; vm_compute; reflexivity].
  intros l a b name toks Hin Hf _.
  apply elem_of_cons in Hin as [->|Hin].
  - vm_compute in Hf. injection Hf as <- <- <- <-.
    exists [40; 0; 280; 223; 7; 0; 22; 108; 0; 330; 330]%Z.
    split; [reflexivity|].
    repeat (apply Forall2_cons; split;
            [apply strconv_ParseUint_spec; vm_compute; reflexivity|]).
    apply Forall2_nil_2.
  - apply list_elem_of_singleton in Hin as ->. vm_compute in Hf. discriminate.
Qed.

(** Whatever makes [os.Open] fail with a not-exist error gives the empty
    map; any other failure of [os.Open] is returned. *)
Lemma getDiskStatsMap_open_error fsys path err :
  os_Open fsys path = Err err →
  getDiskStatsMap fsys path =
    if os_IsNotExist err then Ok ∅ else Err err.
Proof. intros Hopen. unfold getDiskStatsMap. by rewrite Hopen. Qed.

(** C3: when no file exists at the path, [getDiskStatsMap] returns the empty
    map and a nil error. *)
Theorem C3_missing_file_empty_map (fsys : FileSystem) (path : string) :
  fsys !! path = None →
  getDiskStatsMap fsys path = Ok ∅.
Proof.
  intros Hnone.
  rewrite (getDiskStatsMap_open_error fsys path (PathError "open" path ENOENT)).
  - reflexivity.
  - unfold os_Open. by rewrite Hnone.
Qed.

Lemma C3_missing_file_empty_map_witness :
  (∅ : FileSystem) !! "/proc/diskstats" = None ∧
  getDiskStatsMap ∅ "/proc/diskstats" = Ok ∅.
Proof.
  split; [reflexivity|].
  apply (C3_missing_file_empty_map ∅ "/proc/diskstats"). reflexivity.
Defined.

(** C4: in a bulk operation, when [FsStats] fails for a cache entry that
    passes the filter, the enumeration step still ends with a nil error and
    with the records of the other entries (those that pass the filter and
    whose own statistics were obtained), exactly as on the cache without the
    failing entry; the entry itself contributes no record.  The call returns
    these records with a nil error when [withIoStats] is false, and when it
    is true and the statistics file was parsed; the outcome of the call is
    in every case that of the call on the cache without the entry. *)
Theorem C4_stat_failure_skipped (fss : FsStatsCache) (fsys : FileSystem)
    (op : BulkOp) (pre post : PartitionCache) (d : string) (p : partition)
    (e : error) :
  opFilter op d p = true →
  statErr (FsStats fss d p) = Some e →
  enumerate (Build_RealFsInfo (pre ++ (d, p) :: post) fss) (opFilter op) =
    (records fss (opFilter op) (pre ++ post), None) ∧
  entryRecord fss (opFilter op) (d, p) = None ∧
  (∀ d' p' fs, (d', p') ∈ pre ++ post →
     entryRecord fss (opFilter op) (d', p') = Some fs →
     fs ∈ records fss (opFilter op) (pre ++ post)) ∧
  runBulk (Build_RealFsInfo (pre ++ (d, p) :: post) fss) fsys op false =
    Ok (records fss (opFilter op) (pre ++ post)) ∧
  (∀ m, getDiskStatsMap fsys "/proc/diskstats" = Ok m →
     runBulk (Build_RealFsInfo (pre ++ (d, p) :: post) fss) fsys op true =
       Ok (records fss (opFilter op) (pre ++ post))) ∧
  (∀ withIoStats,
     runBulk (Build_RealFsInfo (pre ++ (d, p) :: post) fss) fsys op withIoStats =
     runBulk (Build_RealFsInfo (pre ++ post) fss) fsys op withIoStats).
Proof.
  intros Hpass Hfail.
  pose proof (records_skip fss (opFilter op) pre d p post e Hfail) as Hskip.
  repeat split.
  - rewrite enumerate_records. simpl. by rewrite Hskip.
  - by eapply entryRecord_failed.
  - intros d' p' fs Hin He. unfold records. apply list_elem_of_omap. eauto.
  - rewrite runBulk_getFilteredFsInfo, getFilteredFsInfo_records. simpl.
    by rewrite Hskip.
  - intros m Hm.
    rewrite runBulk_getFilteredFsInfo, getFilteredFsInfo_records. simpl.
    by rewrite Hm, Hskip.
  - intros withIoStats.
    rewrite !runBulk_getFilteredFsInfo, !getFilteredFsInfo_records. simpl.
    by rewrite Hskip.
Qed.

Lemma C4_stat_failure_skipped_witness :
  opFilter OpGlobal "/dev/sda1" ex_root = true ∧
  statErr (FsStats ex_stats "/dev/sda1" ex_root) =
    Some (Errorf "statfs failed" []) ∧
  enumerate ex_self (opFilter OpGlobal) = ([ex_record], None) ∧
  runBulk ex_self ex_fsys OpGlobal false = Ok [ex_record].
Proof.
  pose proof (C4_stat_failure_skipped ex_stats ex_fsys OpGlobal []
                [("/dev/sdb1", ex_partition)] "/dev/sda1" ex_root
                (Errorf "statfs failed" []) eq_refl eq_refl)
    as (Henum & _ & _ & Hrun & _).
  split; [reflexivity|]. split; [reflexivity|].
  split; [exact Henum | exact Hrun].
Defined.

(** ** Device numbers *)

Lemma to_uint_small x : (0 ≤ x < 2 ^ 20)%Z → to_uint x = x.
Proof. intros H. unfold to_uint, uintSize. apply Z.mod_small. lia. Qed.

Lemma land_mask_range a mask k :
  (0 ≤ k)%Z → (0 ≤ mask < 2 ^ k)%Z → (0 ≤ Z.land a mask < 2 ^ k)%Z.
Proof.
  intros Hk Hm.
  apply Z.bounded_iff_bits_nonneg'; [lia | apply Z.land_nonneg; lia |].
  intros l Hl. rewrite Z.land_spec.
  rewrite (proj1 (Z.bounded_iff_bits_nonneg k mask Hk (proj1 Hm)) (proj2 Hm) l Hl).
  apply andb_false_r.
Qed.

Lemma lor_range a b k :
  (0 ≤ k)%Z → (0 ≤ a < 2 ^ k)%Z → (0 ≤ b < 2 ^ k)%Z →
  (0 ≤ Z.lor a b < 2 ^ k)%Z.
Proof.
  intros Hk Ha Hb.
  apply Z.bounded_iff_bits_nonneg'; [lia | apply Z.lor_nonneg; lia |].
  intros l Hl. rewrite Z.lor_spec.
  rewrite (proj1 (Z.bounded_iff_bits_nonneg k a Hk (proj1 Ha)) (proj2 Ha) l Hl).
  rewrite (proj1 (Z.bounded_iff_bits_nonneg k b Hk (proj1 Hb)) (proj2 Hb) l Hl).
  reflexivity.
Qed.

(** The decoded numbers fit in 12 and 20 bits, so that the conversion to
    [uint] keeps them (also where [uint] has 32 bits). *)
Lemma major_bits_range n : (0 ≤ Z.land (Z.shiftr n 8) 4095 < 2 ^ 12)%Z.
Proof. apply land_mask_range; lia. Qed.

Lemma minor_bits_range n :
  (0 ≤ Z.lor (Z.land n 255) (Z.land (Z.shiftr n 12) 1048320) < 2 ^ 20)%Z.
Proof.
  apply lor_range; [lia | | apply land_mask_range; lia].
  pose proof (land_mask_range n 255 8). lia.
Qed.

Lemma bind_Ok_r {A} (r : result A) : (r ≫= Ok) = r.
Proof. by destruct r. Qed.

(** C5: for a 64-bit device number [n], [major n] is [(n >> 8) & 0xfff] and
    [minor n] is [(n & 0xff) | ((n >> 12) & 0xfff00)], and [GetDirFsDevice]
    on a directory whose [stat] gives the device number [n] is the cache
    lookup at these two numbers. *)
Theorem C5_major_minor_decoding (n : Z) :
  (0 ≤ n < 2 ^ 64)%Z →
  major n = Z.land (Z.shiftr n 8) 0xfff ∧
  minor n = Z.lor (Z.land n 0xff) (Z.land (Z.shiftr n 12) 0xfff00) ∧
  ∀ (self : RealFsInfo) (syscall_Stat : string → Stat_t + Errno)
    (dir : string) (buf : Stat_t),
    syscall_Stat dir = inl buf →
    Dev buf = n →
    GetDirFsDevice self syscall_Stat dir =
      DeviceInfoForMajorMinor (partitionCache self)
        (Z.land (Z.shiftr n 8) 0xfff)
        (Z.lor (Z.land n 0xff) (Z.land (Z.shiftr n 12) 0xfff00)).
Proof.
  intros Hn.
  assert (Hmaj : major n = Z.land (Z.shiftr n 8) 0xfff).
  { unfold major. apply to_uint_small.
    pose proof (major_bits_range n). lia. }
  assert (Hmin : minor n =
                 Z.lor (Z.land n 0xff) (Z.land (Z.shiftr n 12) 0xfff00)).
  { unfold minor. apply to_uint_small. apply minor_bits_range. }
  split; [exact Hmaj|]. split; [exact Hmin|].
  intros self syscall_Stat dir buf Hstat Hdev.
  unfold GetDirFsDevice. rewrite Hstat, Hdev, Hmaj, Hmin.
  apply bind_Ok_r.
Qed.

Lemma C5_major_minor_decoding_witness :
  (0 ≤ 2049 < 2 ^ 64)%Z ∧ major 2049 = 8%Z ∧ minor 2049 = 1%Z.
Proof.
  split; [lia|].
  destruct (C5_major_minor_decoding 2049 ltac:(lia)) as (Hmaj & Hmin & _).
  split; [exact Hmaj | exact Hmin].
Defined.

(** C6: the example of the specification.  With the mount set [{"/data"}],
    without I/O statistics, on a cache whose one entry maps ["/dev/sdb1"] to
    a partition mounted at ["/data"] with major 8 and minor 17, and a
    statistics cache answering (vfs, 1000, 400, 380, 100, 60) for it,
    [GetFsInfoForMounts] returns exactly one record, with these values and
    the zero [DiskStats]. *)
Theorem C6_mounts_example (fss : FsStatsCache) (fsys : FileSystem)
    (ft : string) (bs : Z) :
  FsStats fss "/dev/sdb1"
    {| mountpoint := "/data"; part_major := 8; part_minor := 17;
       fsType := ft; blockSize := bs |} =
    (VFS, 1000, 400, 380, 100, 60, None)%Z →
  GetFsInfoForMounts
    (Build_RealFsInfo
       [("/dev/sdb1",
         {| mountpoint := "/data"; part_major := 8; part_minor := 17;
            fsType := ft; blockSize := bs |})] fss)
    fsys {["/data"]} false =
  Ok [ {| fs_DeviceInfo :=
            {| Device := "/dev/sdb1"; Major := 8; Minor := 17 |};
          fs_Type := "vfs"; fs_Capacity := 1000; fs_Free := 400;
          fs_Available := 380; fs_Inodes := 100; fs_InodesFree := 60;
          fs_DiskStats := DiskStats_zero |} ].
Proof.
  intros Hstats. unfold GetFsInfoForMounts.
  rewrite getFilteredFsInfo_records.
  cbn [partitionCache fsStatsCache]. rewrite records_cons.
  unfold entryRecord. cbn [mountpoint].
  rewrite bool_decide_eq_true_2 by set_solver.
  rewrite Hstats. reflexivity.
Qed.

Lemma C6_mounts_example_witness :
  FsStats ex_stats "/dev/sdb1" ex_partition =
    (VFS, 1000, 400, 380, 100, 60, None)%Z ∧
  GetFsInfoForMounts (Build_RealFsInfo [("/dev/sdb1", ex_partition)] ex_stats)
    ∅ {["/data"]} false = Ok [ex_record].
Proof.
  split; [reflexivity|].
  apply (C6_mounts_example ex_stats ∅ "ext4" 4096). reflexivity.
Defined.

(** C7: with the empty directory, [GetDirUsage] returns an error for every
    timeout and every host, and causes no event: the command is not started. *)
Theorem C7_empty_dir_fails (exec_Command : list string → Cmd) (timeout : Z) :
  GetDirUsage exec_Command "" timeout =
    (Err (Errorf "invalid directory" []), []) ∧
  launched (snd (GetDirUsage exec_Command "" timeout)) = false.
Proof. split; reflexivity. Qed.

(** For a directory that is named, the command is started once the pipes are
    set up. *)
Lemma GetDirUsage_launches exec_Command dir timeout :
  dir ≠ "" →
  cmd_StdoutPipe (exec_Command ["nice"; "-n"; "19"; "du"; "-s"; dir]) = None →
  cmd_StderrPipe (exec_Command ["nice"; "-n"; "19"; "du"; "-s"; dir]) = None →
  launched (snd (GetDirUsage exec_Command dir timeout)) = true.
Proof.
  intros Hdir Hout Herr. unfold GetDirUsage.
  destruct (String.eqb_spec dir "") as [->|_]; [done|].
  rewrite Hout, Herr.
  destruct (cmd_Start _); [reflexivity|].
  destruct (cmd_stdout _) as [stdoutb souterr].
  destruct (cmd_Wait _ _); [reflexivity|].
  destruct (index _ _); try reflexivity.
  destruct (strconv_ParseUint _); reflexivity.
Qed.

(** C8: every record a bulk operation returns was built from an entry of
    the partition cache that passes the operation's filter; its [Device] is
    the key of that entry and its [Major] and [Minor] are the numbers of the
    entry's partition. *)
Theorem C8_device_info_of_entry (self : RealFsInfo) (fsys : FileSystem)
    (op : BulkOp) (withIoStats : bool) (out : list Fs) (fs : Fs) :
  runBulk self fsys op withIoStats = Ok out →
  fs ∈ out →
  ∃ d p,
    (d, p) ∈ partitionCache self ∧
    opFilter op d p = true ∧
    entryRecord (fsStatsCache self) (opFilter op) (d, p) = Some fs ∧
    Device (fs_DeviceInfo fs) = d ∧
    Major (fs_DeviceInfo fs) = part_major p ∧
    Minor (fs_DeviceInfo fs) = part_minor p.
Proof.
  intros Hrun Hin. apply runBulk_Ok_records in Hrun as ->.
  unfold records in Hin. apply list_elem_of_omap in Hin as ([d p] & Hin & He).
  exists d, p. pose proof (entryRecord_Some _ _ _ _ _ He) as (Hf & _ & Hdi & _).
  rewrite Hdi. by repeat split.
Qed.

Lemma C8_device_info_of_entry_witness :
  runBulk ex_self ex_fsys OpGlobal true = Ok [ex_record] ∧
  ex_record ∈ [ex_record] ∧
  ∃ d p,
    (d, p) ∈ partitionCache ex_self ∧
    opFilter OpGlobal d p = true ∧
    entryRecord (fsStatsCache ex_self) (opFilter OpGlobal) (d, p) =
      Some ex_record ∧
    Device (fs_DeviceInfo ex_record) = d ∧
    Major (fs_DeviceInfo ex_record) = part_major p ∧
    Minor (fs_DeviceInfo ex_record) = part_minor p.
Proof.
  split; [vm_compute; reflexivity|]. split; [apply list_elem_of_here|].
  apply (C8_device_info_of_entry ex_self ex_fsys OpGlobal true [ex_record]).
  - vm_compute; reflexivity.
  - apply list_elem_of_here.
Defined.

Lemma scanLoop_prefix pre m :
  Forall (λ l, ∃ r, scanLine l = Ok r) pre → ∃ m', scanLoop m pre = Ok m'.
Proof.
  intros H. revert m. induction H as [|l pre [r Hr] _ IH]; intros m.
  - by exists m.
  - cbn [scanLoop]. rewrite Hr. simpl. destruct r as [[k v]|]; apply IH.
Qed.

(** C10: a line of fewer than three fields makes the iteration index the
    fields out of range: it panics, it is neither skipped nor answered with
    an error.  So does the scanner loop when it comes to such a line, and so
    does [getDiskStatsMap] on a file that has such a line after lines that
    were skipped or stored. *)
Theorem C10_short_line_panics (line : string) :
  (length (strings_Fields line) < 3)%nat →
  scanLine line = Panic "index out of range" ∧
  (∀ m rest, scanLoop m (line :: rest) = Panic "index out of range") ∧
  (∀ (fsys : FileSystem) file pre post,
     fsys !! file = Some (File (pre ++ line :: post)) →
     Forall (λ l, ∃ r, scanLine l = Ok r) pre →
     getDiskStatsMap fsys file = Panic "index out of range").
Proof.
  intros Hlen. pose proof (scanLine_short line Hlen) as Hs.
  split; [exact Hs|]. split.
  - intros m rest. cbn [scanLoop]. by rewrite Hs.
  - intros fsys file pre post Hfile Hpre.
    unfold getDiskStatsMap, os_Open. rewrite Hfile, scanLoop_app.
    destruct (scanLoop_prefix pre ∅ Hpre) as [m' ->]. simpl.
    by rewrite Hs.
Qed.

Lemma C10_short_line_panics_witness :
  (length (strings_Fields "") < 3)%nat ∧
  getDiskStatsMap {[ "/proc/diskstats" := File [""] ]} "/proc/diskstats" =
    Panic "index out of range".
Proof.
  split; [simpl; lia|].
  destruct (C10_short_line_panics "" ltac:(simpl; lia)) as (_ & _ & H).
  apply (H {[ "/proc/diskstats" := File [""] ]} "/proc/diskstats" [] []).
  - reflexivity.
  - apply Forall_nil_2.
Defined.

(** * Further properties of the code *)

(** ** The device-name pattern *)

Lemma app_cons c s t : String c s +:+ t = String c (s +:+ t).
Proof. reflexivity. Qed.

Lemma app_nil_l_str t : "" +:+ t = t.
Proof. reflexivity. Qed.

Lemma app_nil_r_str s : s +:+ "" = s.
Proof. induction s as [|c s IH]; [reflexivity|]. by rewrite app_cons, IH. Qed.

Lemma app_assoc_str s t u : (s +:+ t) +:+ u = s +:+ t +:+ u.
Proof.
  induction s as [|c s IH]; [reflexivity|]. by rewrite !app_cons, IH.
Qed.

Lemma app_eq_nil_str s t : s +:+ t = "" → s = "" ∧ t = "".
Proof. destruct s; [rewrite app_nil_l_str; auto | rewrite app_cons; discriminate]. Qed.

Lemma nullable_lang r : nullable r = true ↔ lang r "".
Proof.
  split.
  - induction r as [| |lo hi|r1 IH1 r2 IH2|r1 IH1 r2 IH2|r IH]; simpl;
      try discriminate; intros H.
    + constructor.
    + apply andb_prop in H as [H1 H2].
      change "" with ("" +:+ ""). constructor; auto.
    + apply orb_prop in H as [H|H]; [apply lang_alt_l | apply lang_alt_r]; auto.
    + constructor.
  - intros H. remember "" as s eqn:Hs.
    induction H as [|lo hi c ? ?|r1 r2 s1 s2 _ IH1 _ IH2|r1 r2 s _ IH
                    |r1 r2 s _ IH| |r s1 s2 _ _ _ _]; simpl; try done.
    + apply app_eq_nil_str in Hs as [-> ->]. by rewrite IH1, IH2.
    + by rewrite IH.
    + rewrite IH by done. apply orb_true_r.
Qed.

Lemma lang_deriv_1 c r s : lang (deriv c r) s → lang r (String c s).
Proof.
  revert s.
  induction r as [| |lo hi|r1 IH1 r2 IH2|r1 IH1 r2 IH2|r IH]; simpl; intros s H.
  - inversion H.
  - inversion H.
  - destruct ((N_of_ascii lo <=? N_of_ascii c) && (N_of_ascii c <=? N_of_ascii hi))%N
      eqn:Hc; [|inversion H].
    inversion H; subst. apply andb_prop in Hc as [H1%N.leb_le H2%N.leb_le].
    by constructor.
  - destruct (nullable r1) eqn:Hn.
    + inversion H as [| | |? ? ? H'|? ? ? H'| |]; subst.
      * inversion H' as [| |? ? s1 s2 Ha Hb| | | |]; subst.
        rewrite <- app_cons. constructor; auto.
      * change (String c s) with ("" +:+ String c s).
        constructor; [by apply nullable_lang | auto].
    + inversion H as [| |? ? s1 s2 Ha Hb| | | |]; subst.
      rewrite <- app_cons. constructor; auto.
  - inversion H; subst; [apply lang_alt_l | apply lang_alt_r]; auto.
  - inversion H as [| |? ? s1 s2 Ha Hb| | | |]; subst.
    rewrite <- app_cons. constructor; auto.
Qed.

Lemma lang_deriv_2 c r t : lang r t → ∀ s, t = String c s → lang (deriv c r) s.
Proof.
  induction 1 as [|lo hi c' H1 H2|r1 r2 s1 s2 Ha IH1 Hb IH2|r1 r2 s' _ IH
                  |r1 r2 s' _ IH| |r s1 s2 Ha IH1 Hb IH2]; intros s Ht; simpl.
  - discriminate.
  - injection Ht as -> <-.
    apply N.leb_le in H1, H2. rewrite H1, H2. simpl. constructor.
  - destruct s1 as [|c1 s1].
    + rewrite app_nil_l_str in Ht.
      apply nullable_lang in Ha. rewrite Ha. apply lang_alt_r. by apply IH2.
    + rewrite app_cons in Ht. injection Ht as -> <-.
      destruct (nullable r1); [apply lang_alt_l|];
        (constructor; [by apply IH1 | done]).
  - apply lang_alt_l. by apply IH.
  - apply lang_alt_r. by apply IH.
  - discriminate.
  - destruct s1 as [|c1 s1].
    + rewrite app_nil_l_str in Ht. simpl in IH2. by apply IH2.
    + rewrite app_cons in Ht. injection Ht as -> <-.
      constructor; [by apply IH1 | done].
Qed.

(** The matcher accepts exactly the strings the expression denotes. *)
Lemma matches_lang r s : matches r s = true ↔ lang r s.
Proof.
  revert r. induction s as [|c s IH]; intros r; simpl.
  - apply nullable_lang.
  - rewrite IH. split; [apply lang_deriv_1 | intros H; by eapply lang_deriv_2].
Qed.

Lemma lang_cat_inv r1 r2 s :
  lang (ReCat r1 r2) s ↔ ∃ s1 s2, s = s1 +:+ s2 ∧ lang r1 s1 ∧ lang r2 s2.
Proof.
  split.
  - inversion 1; subst; eauto.
  - intros (s1 & s2 & -> & H1 & H2). by constructor.
Qed.

Lemma lang_alt_inv r1 r2 s : lang (ReAlt r1 r2) s ↔ lang r1 s ∨ lang r2 s.
Proof.
  split.
  - inversion 1; subst; auto.
  - intros [H|H]; [by apply lang_alt_l | by apply lang_alt_r].
Qed.

Lemma lang_range_inv lo hi s :
  lang (ReRange lo hi) s ↔
  ∃ c, s = String c "" ∧ (N_of_ascii lo ≤ N_of_ascii c)%N ∧
       (N_of_ascii c ≤ N_of_ascii hi)%N.
Proof.
  split.
  - inversion 1; subst; eauto.
  - intros (c & -> & H1 & H2). by constructor.
Qed.

Lemma lang_lit w s : lang (ReLit w) s ↔ s = w.
Proof.
  revert s. induction w as [|c w IH]; intros s; simpl.
  - split; [by inversion 1 | intros ->; constructor].
  - rewrite lang_cat_inv. split.
    + intros (s1 & s2 & -> & H1 & H2). apply IH in H2 as ->.
      unfold ReChar in H1. apply lang_range_inv in H1 as (c' & -> & Hlo & Hhi).
      assert (N_of_ascii c' = N_of_ascii c) as Heq by lia.
      apply (f_equal ascii_of_N) in Heq. rewrite !ascii_N_embedding in Heq.
      by subst.
    + intros ->. exists (String c ""), w. split; [reflexivity|].
      split; [|by apply IH]. constructor; lia.
Qed.

Lemma lang_star_range lo hi s :
  lang (ReStar (ReRange lo hi)) s ↔ allIn lo hi s = true.
Proof.
  split.
  - intros H. remember (ReStar (ReRange lo hi)) as r eqn:Hr.
    induction H as [| | | | | |r s1 s2 Ha _ Hb IH]; try discriminate; [done|].
    injection Hr as ->.
    apply lang_range_inv in Ha as (c & -> & Hlo & Hhi).
    rewrite app_cons, app_nil_l_str. simpl.
    apply N.leb_le in Hlo, Hhi. rewrite Hlo, Hhi. simpl. by apply IH.
  - induction s as [|c s IH]; simpl; intros H; [constructor|].
    apply andb_prop in H as [Hc Hs]. apply andb_prop in Hc as [Hlo Hhi].
    apply N.leb_le in Hlo, Hhi.
    change (String c s) with (String c "" +:+ s).
    constructor; [by constructor | by apply IH].
Qed.

Lemma lang_plus_range lo hi s :
  lang (RePlus (ReRange lo hi)) s ↔ s ≠ "" ∧ allIn lo hi s = true.
Proof.
  unfold RePlus. rewrite lang_cat_inv. split.
  - intros (s1 & s2 & -> & H1 & H2).
    apply lang_range_inv in H1 as (c & -> & Hlo & Hhi).
    apply lang_star_range in H2. rewrite app_cons, app_nil_l_str.
    split; [discriminate|]. simpl.
    apply N.leb_le in Hlo, Hhi. by rewrite Hlo, Hhi, H2.
  - intros [Hne H]. destruct s as [|c s]; [done|]. simpl in H.
    apply andb_prop in H as [Hc Hs]. apply andb_prop in Hc as [Hlo Hhi].
    apply N.leb_le in Hlo, Hhi.
    exists (String c ""), s. split; [reflexivity|].
    split; [by constructor | by apply lang_star_range].
Qed.

Lemma or_iff (A B C D : Prop) : (A ↔ B) → (C ↔ D) → (A ∨ C ↔ B ∨ D).
Proof. tauto. Qed.

Lemma MatchString_partitionName (name : string) :
  MatchString partitionRegex name = true ↔ partitionName name.
Proof.
  unfold MatchString, partitionName. rewrite matches_lang.
  unfold partitionRegex, ReDigit. rewrite lang_alt_inv. apply or_iff.
  - rewrite lang_cat_inv. split.
    + intros (p & rest & -> & Hp & Hrest).
      apply lang_cat_inv in Hrest as (d & rest' & -> & Hd & Hrest').
      apply lang_cat_inv in Hrest' as (ls & ds & -> & Hls & Hds).
      apply lang_lit in Hd as ->.
      apply lang_plus_range in Hls as [Hne Hls].
      apply lang_star_range in Hds.
      exists ls, ds. repeat split; try done.
      apply lang_alt_inv in Hp as [Hp|Hp]; apply lang_lit in Hp as ->;
        [by left | by right].
    + intros (ls & ds & Hne & Hls & Hds & Hname).
      assert (lang (ReCat (ReLit "d")
                     (ReCat (RePlus (ReRange "a" "z")) (ReStar (ReRange "0" "9"))))
                ("d" +:+ ls +:+ ds)) as Hrest.
      { constructor; [by apply lang_lit|].
        constructor; [by apply lang_plus_range | by apply lang_star_range]. }
      destruct Hname as [->| ->].
      * exists "s", ("d" +:+ ls +:+ ds). split; [reflexivity|].
        split; [|done]. apply lang_alt_l. by apply lang_lit.
      * exists "xv", ("d" +:+ ls +:+ ds). split; [reflexivity|].
        split; [|done]. apply lang_alt_r. by apply lang_lit.
  - rewrite lang_cat_inv. split.
    + intros (p & ds & -> & Hp & Hds). apply lang_lit in Hp as ->.
      apply lang_plus_range in Hds as [Hne Hds]. by exists ds.
    + intros (ds & Hne & Hds & ->). exists "dm-", ds.
      split; [reflexivity|]. split; [by apply lang_lit | by apply lang_plus_range].
Qed.

Lemma allIn_nameByte_lower s : allIn "a" "z" s = true → allBytes nameByte s = true.
Proof.
  induction s as [|c s IH]; cbn [allIn allBytes]; [done|]. intros H.
  apply andb_prop in H as [Hc Hs]. rewrite (IH Hs), andb_true_r.
  unfold nameByte. change (N_of_ascii "a") with 97%N in Hc.
  change (N_of_ascii "z") with 122%N in Hc. by rewrite Hc.
Qed.

Lemma allIn_nameByte_digit s : allIn "0" "9" s = true → allBytes nameByte s = true.
Proof.
  induction s as [|c s IH]; cbn [allIn allBytes]; [done|]. intros H.
  apply andb_prop in H as [Hc Hs]. rewrite (IH Hs), andb_true_r.
  unfold nameByte. change (N_of_ascii "0") with 48%N in Hc.
  change (N_of_ascii "9") with 57%N in Hc. rewrite Hc.
  by rewrite orb_true_r.
Qed.

Lemma allBytes_app P s t :
  allBytes P (s +:+ t) = allBytes P s && allBytes P t.
Proof.
  induction s as [|c s IH]; [reflexivity|].
  rewrite app_cons. simpl. by rewrite IH, andb_assoc.
Qed.

Lemma partitionName_bytes name :
  partitionName name → name ≠ "" ∧ allBytes nameByte name = true.
Proof.
  intros [(ls & ds & Hne & Hls & Hds & [-> | ->]) | (ds & Hne & Hds & ->)].
  - split; [discriminate|].
    rewrite !allBytes_app, (allIn_nameByte_lower _ Hls),
      (allIn_nameByte_digit _ Hds). reflexivity.
  - split; [discriminate|].
    rewrite !allBytes_app, (allIn_nameByte_lower _ Hls),
      (allIn_nameByte_digit _ Hds). reflexivity.
  - split; [discriminate|].
    rewrite allBytes_app, (allIn_nameByte_digit _ Hds). reflexivity.
Qed.

(** X1: the pattern accepts exactly the names [sd] or [xvd] followed by one
    or more lower-case letters and any number of digits, and [dm-] followed
    by one or more digits; an accepted name is therefore not empty and holds
    only lower-case letters, digits and [-] (no slash, no dot). *)
Theorem X1_partitionRegex_names (name : string) :
  (MatchString partitionRegex name = true ↔ partitionName name) ∧
  (MatchString partitionRegex name = true →
   name ≠ "" ∧ allBytes nameByte name = true).
Proof.
  split; [apply MatchString_partitionName|].
  intros H. by apply partitionName_bytes, MatchString_partitionName.
Qed.

(** ** What a successful parse returns *)

Lemma parseDigits_cases s0 t n :
  (∃ v, parseDigits s0 t n = Ok v) ∨
  (∃ kind, parseDigits s0 t n = Err (NumError "ParseUint" s0 kind)).
Proof.
  revert n. induction t as [|c t IH]; intros n; simpl; [left; eauto|].
  repeat case_match; eauto.
Qed.

Lemma strconv_ParseUint_cases s :
  (∃ v, strconv_ParseUint s = Ok v) ∨
  (∃ kind, strconv_ParseUint s = Err (NumError "ParseUint" s kind)).
Proof.
  unfold strconv_ParseUint. destruct s as [|c s]; [right; eauto|].
  apply parseDigits_cases.
Qed.

Lemma parseStats_Ok_Forall2 toks vs :
  parseStats toks = Ok vs → Forall2 isUint64 toks vs.
Proof.
  revert vs. induction toks as [|t toks IH]; intros vs; simpl.
  - intros [= <-]. constructor.
  - destruct (strconv_ParseUint t) as [v| |] eqn:Ht; simpl; try discriminate.
    destruct (parseStats toks) as [vs'| |]; simpl; try discriminate.
    intros [= <-]. constructor; [by apply strconv_ParseUint_spec | by apply IH].
Qed.

(** What an iteration that stores an entry has read. *)
Lemma scanLine_Some_inv line k ds :
  scanLine line = Ok (Some (k, ds)) →
  ∃ a b name toks v0 v1 v2 v3 v4 v5 v6 v7 v8 v9 v10 more,
    strings_Fields line = a :: b :: name :: toks ∧
    MatchString partitionRegex name = true ∧
    k = "/dev/" +:+ name ∧
    parseStats toks =
      Ok (v0 :: v1 :: v2 :: v3 :: v4 :: v5 :: v6 :: v7 :: v8 :: v9 :: v10
            :: more) ∧
    ds = {| ReadsCompleted := v0; ReadsMerged := v1; SectorsRead := v2;
            ReadTime := v3; WritesCompleted := v4; WritesMerged := v5;
            SectorsWritten := v6; WriteTime := v7; IoInProgress := v8;
            IoTime := v9; WeightedIoTime := v10 |}.
Proof.
  unfold scanLine.
  destruct (strings_Fields line) as [|a [|b [|name toks]]] eqn:Hf;
    try discriminate.
  cbn [index lookup list_lookup mbind result_bind length drop].
  destruct (MatchString partitionRegex name) eqn:Hm; simpl; [|discriminate].
  destruct (length toks - 0 <? 11)%nat eqn:Hn; [discriminate|].
  rewrite drop_0.
  destruct (parseStats toks) as [vs| |] eqn:Hp; simpl; try discriminate.
  apply Nat.ltb_ge in Hn. pose proof (parseStats_length _ _ Hp) as Hlen.
  do 11 (destruct vs as [|? vs]; [simpl in Hlen; lia|]).
  intros [= <- <-]. repeat eexists; eauto.
Qed.

(** What an iteration that skips its line has read. *)
Lemma scanLine_None_inv line :
  scanLine line = Ok None →
  ∃ a b name toks,
    strings_Fields line = a :: b :: name :: toks ∧
    MatchString partitionRegex name = false.
Proof.
  unfold scanLine.
  destruct (strings_Fields line) as [|a [|b [|name toks]]] eqn:Hf;
    try discriminate.
  cbn [index lookup list_lookup mbind result_bind length drop].
  destruct (MatchString partitionRegex name) eqn:Hm; simpl; [|by eauto 10].
  destruct (length toks - 0 <? 11)%nat eqn:Hn; [discriminate|].
  rewrite drop_0.
  destruct (parseStats toks) as [vs| |] eqn:Hp; simpl; try discriminate.
  apply Nat.ltb_ge in Hn. pose proof (parseStats_length _ _ Hp) as Hlen.
  do 11 (destruct vs as [|? vs]; [simpl in Hlen; lia|]). discriminate.
Qed.

(** A loop that ends normally has run every iteration normally, and its map
    is the map it started with, with the iterations' entries in their order. *)
Lemma scanLoop_Ok_inv lines m0 m :
  scanLoop m0 lines = Ok m →
  ∃ entries,
    Forall2 (λ l e, scanLine l = Ok e) lines entries ∧
    m = fold_left (λ m e, match e with
                          | Some (k, v) => <[k := v]> m
                          | None => m
                          end) entries m0.
Proof.
  revert m0. induction lines as [|l lines IH]; intros m0; cbn [scanLoop].
  - intros [= <-]. exists []. by split.
  - destruct (scanLine l) as [e| |] eqn:Hl; simpl; try discriminate.
    intros H.
    assert (∃ m1, scanLoop m1 lines = Ok m ∧
                  m1 = match e with Some (k, v) => <[k:=v]> m0 | None => m0 end)
      as (m1 & H1 & ->).
    { destruct e as [[k v]|]; eauto. }
    apply IH in H1 as (entries & HF & ->).
    exists (e :: entries). split; [by constructor | reflexivity].
Qed.

Lemma Forall2_elem_r {A B} (P : A → B → Prop) l k y :
  Forall2 P l k → y ∈ k → ∃ x, x ∈ l ∧ P x y.
Proof.
  induction 1 as [|x y' l k Hxy _ IH]; intros Hin.
  - by apply elem_of_nil in Hin.
  - apply elem_of_cons in Hin as [->|Hin].
    + exists x. split; [left | done].
    + destruct (IH Hin) as (x' & ? & ?). exists x'. split; [by right | done].
Qed.

Lemma Forall2_elem_l {A B} (P : A → B → Prop) l k x :
  Forall2 P l k → x ∈ l → ∃ y, y ∈ k ∧ P x y.
Proof.
  induction 1 as [|x' y l k Hxy _ IH]; intros Hin.
  - by apply elem_of_nil in Hin.
  - apply elem_of_cons in Hin as [->|Hin].
    + exists y. split; [left | done].
    + destruct (IH Hin) as (y' & ? & ?). exists y'. split; [by right | done].
Qed.

Lemma fold_entries_lookup_Some entries (m : gmap string DiskStats) k v :
  fold_left (λ m e, match e with
                    | Some (k, v) => <[k := v]> m
                    | None => m
                    end) entries m !! k = Some v →
  m !! k = Some v ∨ Some (k, v) ∈ entries.
Proof.
  revert m. induction entries as [|e entries IH]; intros m Hl; [by left|].
  cbn [fold_left] in Hl. apply IH in Hl as [Hl|Hl]; [|right; by right].
  destruct e as [[k' v']|]; [|by left].
  destruct (decide (k' = k)) as [->|Hne].
  - rewrite lookup_insert_eq in Hl. injection Hl as ->. right. left.
  - rewrite lookup_insert_ne in Hl by done. by left.
Qed.

Lemma fold_entries_lookup_is_Some entries (m : gmap string DiskStats) k :
  is_Some (m !! k) ∨ (∃ v, Some (k, v) ∈ entries) →
  is_Some (fold_left (λ m e, match e with
                             | Some (k, v) => <[k := v]> m
                             | None => m
                             end) entries m !! k).
Proof.
  revert m. induction entries as [|e entries IH]; intros m H.
  - destruct H as [H|[v H]]; [done | by apply elem_of_nil in H].
  - cbn [fold_left]. apply IH. destruct H as [H|[v H]].
    + left. destruct e as [[k' v']|]; [|done].
      destruct (decide (k' = k)) as [->|Hne].
      * rewrite lookup_insert_eq. eauto.
      * by rewrite lookup_insert_ne.
    + apply elem_of_cons in H as [<-|H]; [|right; eauto].
      left. rewrite lookup_insert_eq. eauto.
Qed.

Lemma getDiskStatsMap_File fsys file lines :
  fsys !! file = Some (File lines) →
  getDiskStatsMap fsys file = scanLoop ∅ lines.
Proof. intros H. unfold getDiskStatsMap, os_Open. by rewrite H. Qed.

Lemma getDiskStatsMap_Ok_inv fsys file m :
  getDiskStatsMap fsys file = Ok m →
  m = ∅ ∨ ∃ lines, fsys !! file = Some (File lines) ∧ scanLoop ∅ lines = Ok m.
Proof.
  unfold getDiskStatsMap, os_Open.
  destruct (fsys !! file) as [[lines|errno]|] eqn:Hf; simpl.
  - intros H. right. eauto.
  - destruct errno; simpl; [intros [= <-]; by left | discriminate..].
  - intros [= <-]. by left.
Qed.

(** X2: every key of a map that [getDiskStatsMap] returns is ["/dev/"]
    followed by a device name that the pattern accepts: a non-empty name of
    lower-case letters, digits and [-], so that joining it to ["/dev"] had
    nothing to clean. *)
Theorem X2_diskstats_keys (fsys : FileSystem) (file : string)
    (m : gmap string DiskStats) (k : string) (ds : DiskStats) :
  getDiskStatsMap fsys file = Ok m →
  m !! k = Some ds →
  ∃ name,
    k = "/dev/" +:+ name ∧ partitionName name ∧
    name ≠ "" ∧ allBytes nameByte name = true.
Proof.
  intros Hm Hk.
  apply getDiskStatsMap_Ok_inv in Hm as [-> | (lines & _ & Hloop)].
  { by rewrite lookup_empty in Hk. }
  apply scanLoop_Ok_inv in Hloop as (entries & HF & ->).
  apply fold_entries_lookup_Some in Hk as [Hk|Hk].
  { by rewrite lookup_empty in Hk. }
  destruct (Forall2_elem_r _ _ _ _ HF Hk) as (line & _ & Hline).
  apply scanLine_Some_inv in Hline
    as (a & b & name & toks & v0 & v1 & v2 & v3 & v4 & v5 & v6 & v7 & v8 & v9
        & v10 & more & _ & Hmatch & -> & _ & _).
  apply MatchString_partitionName in Hmatch.
  exists name. pose proof (partitionName_bytes _ Hmatch) as [? ?]. done.
Qed.

Lemma X2_diskstats_keys_witness :
  getDiskStatsMap ex_fsys "/proc/diskstats" =
    Ok {[ "/dev/sdb1" := ex_diskStats ]} ∧
  ({[ "/dev/sdb1" := ex_diskStats ]} : gmap string DiskStats) !! "/dev/sdb1" =
    Some ex_diskStats ∧
  ∃ name,
    "/dev/sdb1" = "/dev/" +:+ name ∧ partitionName name ∧
    name ≠ "" ∧ allBytes nameByte name = true.
Proof.
  split; [vm_compute; reflexivity|]. split; [reflexivity|].
  apply (X2_diskstats_keys ex_fsys "/proc/diskstats"
           {[ "/dev/sdb1" := ex_diskStats ]} "/dev/sdb1" ex_diskStats).
  - vm_compute; reflexivity.
  - reflexivity.
Defined.

Lemma dev_name_inj name name' : "/dev/" +:+ name = "/dev/" +:+ name' → name = name'.
Proof. intros H. by injection H. Qed.

(** X3: whenever the parse of a file succeeds, the entry of a device is made
    of the first eleven numbers after the name on the last line of that
    device, in the order of the fields of [DiskStats]; all the fields after
    the name on that line are numerals of 64-bit values. *)
Theorem X3_diskstats_last_line (fsys : FileSystem) (file : string)
    (m : gmap string DiskStats) (pre post : list string)
    (line a b name : string) (toks : list string) :
  fsys !! file = Some (File (pre ++ line :: post)) →
  getDiskStatsMap fsys file = Ok m →
  strings_Fields line = a :: b :: name :: toks →
  MatchString partitionRegex name = true →
  (∀ l, l ∈ post → strings_Fields l !! 2%nat ≠ Some name) →
  ∃ v0 v1 v2 v3 v4 v5 v6 v7 v8 v9 v10 more,
    Forall2 isUint64 toks
      (v0 :: v1 :: v2 :: v3 :: v4 :: v5 :: v6 :: v7 :: v8 :: v9 :: v10 :: more) ∧
    m !! ("/dev/" +:+ name) =
      Some {| ReadsCompleted := v0; ReadsMerged := v1; SectorsRead := v2;
              ReadTime := v3; WritesCompleted := v4; WritesMerged := v5;
              SectorsWritten := v6; WriteTime := v7; IoInProgress := v8;
              IoTime := v9; WeightedIoTime := v10 |}.
Proof.
  intros Hfile Hm Hf Hmatch Hpost.
  rewrite (getDiskStatsMap_File _ _ _ Hfile), scanLoop_app in Hm.
  destruct (scanLoop ∅ pre) as [m1| |]; simpl in Hm; try discriminate.
  cbn [scanLoop] in Hm.
  destruct (scanLine line) as [[[k ds]|]| |] eqn:Hline; simpl in Hm;
    try discriminate.
  - apply scanLine_Some_inv in Hline
      as (a' & b' & name' & toks' & v0 & v1 & v2 & v3 & v4 & v5 & v6 & v7 & v8
          & v9 & v10 & more & Hf' & _ & -> & Hp & ->).
    rewrite Hf in Hf'. injection Hf' as <- <- <- <-.
    exists v0, v1, v2, v3, v4, v5, v6, v7, v8, v9, v10, more.
    split; [by apply parseStats_Ok_Forall2|].
    apply scanLoop_Ok_inv in Hm as (entries & HF & ->).
    rewrite fold_entries_lookup_notin; [apply lookup_insert_eq|].
    intros v' Hin.
    destruct (Forall2_elem_r _ _ _ _ HF Hin) as (l & Hl & Hs).
    apply scanLine_Some_inv in Hs
      as (a' & b' & name' & toks' & ? & ? & ? & ? & ? & ? & ? & ? & ? & ? & ?
          & ? & Hf' & _ & Hk & _ & _).
    apply dev_name_inj in Hk as <-.
    apply (Hpost l Hl). by rewrite Hf'.
  - apply scanLine_None_inv in Hline as (a' & b' & name' & toks' & Hf' & Hno).
    rewrite Hf in Hf'. injection Hf' as <- <- <- <-. congruence.
Qed.

Lemma X3_diskstats_last_line_witness :
  ex_fsys !! "/proc/diskstats" = Some (File ([] ++ ex_line :: [])) ∧
  getDiskStatsMap ex_fsys "/proc/diskstats" =
    Ok {[ "/dev/sdb1" := ex_diskStats ]} ∧
  strings_Fields ex_line =
    ["8"; "17"; "sdb1"; "40"; "0"; "280"; "223"; "7"; "0"; "22"; "108"; "0";
     "330"; "330"] ∧
  MatchString partitionRegex "sdb1" = true ∧
  ∃ v0 v1 v2 v3 v4 v5 v6 v7 v8 v9 v10 more,
    Forall2 isUint64
      ["40"; "0"; "280"; "223"; "7"; "0"; "22"; "108"; "0"; "330"; "330"]
      (v0 :: v1 :: v2 :: v3 :: v4 :: v5 :: v6 :: v7 :: v8 :: v9 :: v10 :: more) ∧
    ({[ "/dev/sdb1" := ex_diskStats ]} : gmap string DiskStats)
      !! ("/dev/" +:+ "sdb1") =
      Some {| ReadsCompleted := v0; ReadsMerged := v1; SectorsRead := v2;
              ReadTime := v3; WritesCompleted := v4; WritesMerged := v5;
              SectorsWritten := v6; WriteTime := v7; IoInProgress := v8;
              IoTime := v9; WeightedIoTime := v10 |}.
Proof.
  split; [reflexivity|]. split; [vm_compute; reflexivity|].
  split; [vm_compute; reflexivity|]. split; [vm_compute; reflexivity|].
  apply (X3_diskstats_last_line ex_fsys "/proc/diskstats"
           {[ "/dev/sdb1" := ex_diskStats ]} [] [] ex_line "8" "17" "sdb1").
  - reflexivity.
  - vm_compute; reflexivity.
  - vm_compute; reflexivity.
  - vm_compute; reflexivity.
  - intros l Hl. by apply elem_of_nil in Hl.
Defined.

(** X4: when the parse of a file succeeds, the devices of the map are
    exactly those named (under ["/dev/"]) by the third field of some line
    that the pattern accepts. *)
Theorem X4_diskstats_domain (fsys : FileSystem) (file : string)
    (lines : list string) (m : gmap string DiskStats) (k : string) :
  fsys !! file = Some (File lines) →
  getDiskStatsMap fsys file = Ok m →
  is_Some (m !! k) ↔
  ∃ line name,
    line ∈ lines ∧ strings_Fields line !! 2%nat = Some name ∧
    MatchString partitionRegex name = true ∧ k = "/dev/" +:+ name.
Proof.
  intros Hfile Hm. rewrite (getDiskStatsMap_File _ _ _ Hfile) in Hm.
  apply scanLoop_Ok_inv in Hm as (entries & HF & ->). split.
  - intros [ds Hk]. apply fold_entries_lookup_Some in Hk as [Hk|Hk].
    { by rewrite lookup_empty in Hk. }
    destruct (Forall2_elem_r _ _ _ _ HF Hk) as (line & Hin & Hline).
    apply scanLine_Some_inv in Hline
      as (a & b & name & toks & ? & ? & ? & ? & ? & ? & ? & ? & ? & ? & ?
          & ? & Hf & Hmatch & -> & _ & _).
    exists line, name. by rewrite Hf.
  - intros (line & name & Hin & Hf & Hmatch & ->).
    apply fold_entries_lookup_is_Some. right.
    destruct (Forall2_elem_l _ _ _ _ HF Hin) as ([[k ds]|] & He & Hline).
    + exists ds.
      apply scanLine_Some_inv in Hline
        as (a & b & name' & toks & ? & ? & ? & ? & ? & ? & ? & ? & ? & ? & ?
            & ? & Hf' & _ & -> & _ & _).
      rewrite Hf' in Hf. injection Hf as ->. done.
    + apply scanLine_None_inv in Hline as (a & b & name' & toks & Hf' & Hno).
      rewrite Hf' in Hf. injection Hf as ->. congruence.
Qed.

Lemma X4_diskstats_domain_witness :
  ex_fsys !! "/proc/diskstats" = Some (File [ex_line]) ∧
  getDiskStatsMap ex_fsys "/proc/diskstats" =
    Ok {[ "/dev/sdb1" := ex_diskStats ]} ∧
  (is_Some (({[ "/dev/sdb1" := ex_diskStats ]} : gmap string DiskStats)
              !! "/dev/sda") ↔
   ∃ line name,
     line ∈ [ex_line] ∧ strings_Fields line !! 2%nat = Some name ∧
     MatchString partitionRegex name = true ∧ "/dev/sda" = "/dev/" +:+ name).
Proof.
  split; [reflexivity|]. split; [vm_compute; reflexivity|].
  apply (X4_diskstats_domain ex_fsys "/proc/diskstats" [ex_line]).
  - reflexivity.
  - vm_compute; reflexivity.
Defined.

Lemma scanLoop_Panic_inv lines m0 msg :
  scanLoop m0 lines = Panic msg →
  ∃ line, line ∈ lines ∧ (length (strings_Fields line) < 3)%nat.
Proof.
  revert m0. induction lines as [|l lines IH]; intros m0; cbn [scanLoop];
    [discriminate|].
  destruct (scanLine l) as [e| |msg'] eqn:Hl; simpl.
  - intros H.
    assert (∃ m1, scanLoop m1 lines = Panic msg) as [m1 H1].
    { destruct e as [[k v]|]; eauto. }
    destruct (IH _ H1) as (line & ? & ?). exists line. split; [by right|done].
  - discriminate.
  - intros _. exists l. split; [left|].
    destruct (decide (length (strings_Fields l) < 3)%nat) as [|Hge]; [done|].
    exfalso. apply (scanLine_no_panic l msg'); [lia | done].
Qed.

(** X5: [getDiskStatsMap] panics only on a file that has a line of fewer
    than three fields. *)
Theorem X5_diskstats_panic_only_short (fsys : FileSystem) (file msg : string) :
  getDiskStatsMap fsys file = Panic msg →
  ∃ lines line,
    fsys !! file = Some (File lines) ∧ line ∈ lines ∧
    (length (strings_Fields line) < 3)%nat.
Proof.
  unfold getDiskStatsMap, os_Open.
  destruct (fsys !! file) as [[lines|errno]|] eqn:Hf; simpl.
  - intros Hloop. exists lines.
    apply scanLoop_Panic_inv in Hloop as (line & ? & ?). eauto.
  - destruct errno; discriminate.
  - discriminate.
Qed.

Lemma X5_diskstats_panic_only_short_witness :
  getDiskStatsMap blank_fsys "/proc/diskstats" = Panic "index out of range" ∧
  ∃ lines line,
    blank_fsys !! "/proc/diskstats" = Some (File lines) ∧ line ∈ lines ∧
    (length (strings_Fields line) < 3)%nat.
Proof.
  split; [vm_compute; reflexivity|].
  apply (X5_diskstats_panic_only_short blank_fsys "/proc/diskstats"
           "index out of range").
  vm_compute; reflexivity.
Defined.

(** ** Lines that fail, and lines that do not count *)

Lemma getDiskStatsMap_at fsys file pre line post :
  fsys !! file = Some (File (pre ++ line :: post)) →
  Forall (λ l, ∃ r, scanLine l = Ok r) pre →
  ∃ m1, getDiskStatsMap fsys file =
          (scanLine line ≫= λ r,
             match r with
             | None => scanLoop m1 post
             | Some (k, v) => scanLoop (<[k := v]> m1) post
             end).
Proof.
  intros Hfile Hpre. rewrite (getDiskStatsMap_File _ _ _ Hfile), scanLoop_app.
  destruct (scanLoop_prefix pre ∅ Hpre) as [m1 ->]. by exists m1.
Qed.

Lemma parseStats_bad good bad rest :
  Forall (λ t, ∃ v, isUint64 t v) good →
  (∀ v, ¬ isUint64 bad v) →
  ∃ kind, parseStats (good ++ bad :: rest) =
            Err (NumError "ParseUint" bad kind).
Proof.
  intros Hgood Hbad. induction Hgood as [|t good [v Ht] _ IH]; simpl.
  - destruct (strconv_ParseUint_cases bad) as [[v Hv]|[kind ->]].
    + by apply strconv_ParseUint_spec, Hbad in Hv.
    + by exists kind.
  - apply strconv_ParseUint_spec in Ht. rewrite Ht. simpl.
    destruct IH as [kind ->]. by exists kind.
Qed.

(** X6: on a partition line with at least eleven fields after the name,
    every one of these fields has to be a numeral of a 64-bit value, also
    those after the eleventh, which are not stored: the first field that is
    not makes the call fail with the error of [strconv.ParseUint] for that
    field, whatever follows in the file. *)
Theorem X6_diskstats_bad_numeral (fsys : FileSystem) (file : string)
    (pre post : list string) (line a b name bad : string)
    (good rest : list string) :
  fsys !! file = Some (File (pre ++ line :: post)) →
  Forall (λ l, ∃ r, scanLine l = Ok r) pre →
  strings_Fields line = a :: b :: name :: good ++ bad :: rest →
  MatchString partitionRegex name = true →
  (11 ≤ length (good ++ bad :: rest))%nat →
  Forall (λ t, ∃ v, isUint64 t v) good →
  (∀ v, ¬ isUint64 bad v) →
  ∃ kind, getDiskStatsMap fsys file = Err (NumError "ParseUint" bad kind).
Proof.
  intros Hfile Hpre Hf Hmatch Hlen Hgood Hbad.
  destruct (getDiskStatsMap_at _ _ _ _ _ Hfile Hpre) as [m1 ->].
  destruct (parseStats_bad good bad rest Hgood Hbad) as [kind Hp].
  exists kind. unfold scanLine. rewrite Hf.
  cbn [index lookup list_lookup mbind result_bind length drop].
  rewrite Hmatch. cbn [negb].
  replace (S (S (S (length (good ++ bad :: rest)))) - 3 <? 11)%nat with false.
  - by rewrite drop_0, Hp.
  - symmetry. apply Nat.ltb_ge. lia.
Qed.

(** X7: a partition line with fewer than eleven fields after the name makes
    the call fail with the error about the eleven columns, before any of
    its fields is parsed and whatever follows in the file. *)
Theorem X7_diskstats_few_columns (fsys : FileSystem) (file : string)
    (pre post : list string) (line a b name : string) (toks : list string) :
  fsys !! file = Some (File (pre ++ line :: post)) →
  Forall (λ l, ∃ r, scanLine l = Ok r) pre →
  strings_Fields line = a :: b :: name :: toks →
  MatchString partitionRegex name = true →
  (length toks < 11)%nat →
  getDiskStatsMap fsys file =
    Err (Errorf "could not parse all 11 columns of /proc/diskstats" []).
Proof.
  intros Hfile Hpre Hf Hmatch Hlen.
  destruct (getDiskStatsMap_at _ _ _ _ _ Hfile Hpre) as [m1 ->].
  by rewrite (scanLine_few _ _ _ _ _ Hf Hmatch Hlen).
Qed.

(** X8: a line with a third field that the pattern does not accept does not
    count: the call gives the same result, value or failure, as on the file
    without that line. *)
Theorem X8_diskstats_other_lines_ignored (fsys fsys' : FileSystem)
    (file file' : string) (pre post : list string) (line name : string) :
  fsys !! file = Some (File (pre ++ line :: post)) →
  fsys' !! file' = Some (File (pre ++ post)) →
  strings_Fields line !! 2%nat = Some name →
  MatchString partitionRegex name = false →
  getDiskStatsMap fsys file = getDiskStatsMap fsys' file'.
Proof.
  intros Hfile Hfile' Hf Hmatch.
  rewrite (getDiskStatsMap_File _ _ _ Hfile), (getDiskStatsMap_File _ _ _ Hfile').
  rewrite !scanLoop_app. destruct (scanLoop ∅ pre) as [m1| |]; simpl; try done.
  assert (scanLine line = Ok None) as ->; [|done].
  destruct (strings_Fields line) as [|a [|b [|name' toks]]] eqn:Hfields;
    try discriminate.
  injection Hf as ->. by eapply scanLine_skip.
Qed.

(** ** More on the bulk operations *)

Lemma runBulk_cases self fsys op withIoStats :
  runBulk self fsys op withIoStats =
    if withIoStats then
      match getDiskStatsMap fsys "/proc/diskstats" with
      | Ok _ => Ok (records (fsStatsCache self) (opFilter op) (partitionCache self))
      | Err e => Err e
      | Panic msg => Panic msg
      end
    else Ok (records (fsStatsCache self) (opFilter op) (partitionCache self)).
Proof. by rewrite runBulk_getFilteredFsInfo, getFilteredFsInfo_records. Qed.

(** X9: every cache entry that passes the filter of a bulk operation and
    whose [FsStats] call succeeds has its record in the result: the device
    and numbers of the entry with the six values that [FsStats] answered. *)
Theorem X9_bulk_complete (self : RealFsInfo) (fsys : FileSystem) (op : BulkOp)
    (withIoStats : bool) (out : list Fs) (d : string) (p : partition)
    (ty : FsType) (capacity free available inodes inodesFree : Z) :
  runBulk self fsys op withIoStats = Ok out →
  (d, p) ∈ partitionCache self →
  opFilter op d p = true →
  FsStats (fsStatsCache self) d p =
    (ty, capacity, free, available, inodes, inodesFree, None) →
  ∃ fs,
    fs ∈ out ∧
    fs_DeviceInfo fs =
      {| Device := d; Major := part_major p; Minor := part_minor p |} ∧
    fs_Type fs = ty ∧ fs_Capacity fs = capacity ∧ fs_Free fs = free ∧
    fs_Available fs = available ∧ fs_Inodes fs = inodes ∧
    fs_InodesFree fs = inodesFree.
Proof.
  intros Hrun Hin Hpass Hstat. apply runBulk_Ok_records in Hrun as ->.
  eexists. split.
  - unfold records. apply list_elem_of_omap. exists (d, p). split; [done|].
    unfold entryRecord. rewrite Hpass, Hstat. reflexivity.
  - done.
Qed.

Lemma X9_bulk_complete_witness :
  runBulk ex_self ex_fsys OpGlobal true = Ok [ex_record] ∧
  ("/dev/sdb1", ex_partition) ∈ partitionCache ex_self ∧
  ∃ fs,
    fs ∈ [ex_record] ∧
    fs_DeviceInfo fs =
      {| Device := "/dev/sdb1"; Major := part_major ex_partition;
         Minor := part_minor ex_partition |} ∧
    fs_Type fs = VFS ∧ fs_Capacity fs = 1000%Z ∧ fs_Free fs = 400%Z ∧
    fs_Available fs = 380%Z ∧ fs_Inodes fs = 100%Z ∧
    fs_InodesFree fs = 60%Z.
Proof.
  split; [vm_compute; reflexivity|].
  split; [right; left|].
  apply (X9_bulk_complete ex_self ex_fsys OpGlobal true [ex_record]
           "/dev/sdb1" ex_partition).
  - vm_compute; reflexivity.
  - right; left.
  - reflexivity.
  - reflexivity.
Defined.

(** X10: a bulk operation without I/O statistics always returns records and
    a nil error; with I/O statistics it fails or panics exactly when the
    parse of ["/proc/diskstats"] does, with the same error. *)
Theorem X10_bulk_failures (self : RealFsInfo) (fsys : FileSystem)
    (op : BulkOp) :
  (∃ out, runBulk self fsys op false = Ok out) ∧
  (∀ e, runBulk self fsys op true = Err e ↔
        getDiskStatsMap fsys "/proc/diskstats" = Err e) ∧
  (∀ msg, runBulk self fsys op true = Panic msg ↔
          getDiskStatsMap fsys "/proc/diskstats" = Panic msg).
Proof.
  rewrite !runBulk_cases. split; [eauto|].
  split; intros x; destruct (getDiskStatsMap fsys "/proc/diskstats");
    split; congruence.
Qed.

(** X11: on a host without ["/proc/diskstats"], asking for I/O statistics
    is no error: the operation returns what it returns without them. *)
Theorem X11_bulk_without_diskstats (self : RealFsInfo) (fsys : FileSystem)
    (op : BulkOp) :
  fsys !! "/proc/diskstats" = None →
  ∃ out,
    runBulk self fsys op true = Ok out ∧ runBulk self fsys op false = Ok out.
Proof.
  intros Hnone. rewrite !runBulk_cases.
  rewrite (getDiskStatsMap_open_error fsys "/proc/diskstats"
             (PathError "open" "/proc/diskstats" ENOENT)).
  - simpl. eauto.
  - unfold os_Open. by rewrite Hnone.
Qed.

Lemma X11_bulk_without_diskstats_witness :
  (∅ : FileSystem) !! "/proc/diskstats" = None ∧
  ∃ out,
    runBulk ex_self ∅ OpGlobal true = Ok out ∧
    runBulk ex_self ∅ OpGlobal false = Ok out.
Proof.
  split; [reflexivity|].
  apply (X11_bulk_without_diskstats ex_self ∅ OpGlobal). reflexivity.
Defined.

Lemma records_devices_filter fss (S : gset string) cache :
  records fss (opFilter (OpDevices S)) cache =
    filter (λ fs, Device (fs_DeviceInfo fs) ∈ S)
      (records fss (opFilter OpGlobal) cache).
Proof.
  induction cache as [|[d p] cache IH]; [reflexivity|].
  rewrite !records_cons, IH.
  destruct (entryRecord fss (opFilter OpGlobal) (d, p)) as [fs|] eqn:Hg.
  - pose proof (entryRecord_Some _ _ _ _ _ Hg) as (_ & _ & Hdi & _).
    unfold entryRecord in *. cbn [opFilter] in *.
    destruct (decide (d ∈ S)) as [Hd|Hd].
    + rewrite bool_decide_eq_true_2 by done. rewrite Hg.
      rewrite filter_cons_True; [done|]. by rewrite Hdi.
    + rewrite bool_decide_eq_false_2 by done.
      rewrite filter_cons_False; [done|]. by rewrite Hdi.
  - unfold entryRecord in *. cbn [opFilter] in *.
    destruct (bool_decide (d ∈ S)); [by rewrite Hg | done].
Qed.

(** X12: [GetFsInfoForDevices] returns the records of [GetGlobalFsInfo]
    whose device is in the set, in the same order. *)
Theorem X12_devices_restrict_global (self : RealFsInfo) (fsys : FileSystem)
    (deviceSet : gset string) (withIoStats : bool) (out all : list Fs) :
  GetFsInfoForDevices self fsys deviceSet withIoStats = Ok out →
  GetGlobalFsInfo self fsys withIoStats = Ok all →
  out = filter (λ fs, Device (fs_DeviceInfo fs) ∈ deviceSet) all.
Proof.
  intros Hd Hg.
  apply (runBulk_Ok_records self fsys (OpDevices deviceSet)) in Hd as ->.
  apply (runBulk_Ok_records self fsys OpGlobal) in Hg as ->.
  apply records_devices_filter.
Qed.

Lemma X12_devices_restrict_global_witness :
  GetFsInfoForDevices ex_self ex_fsys {["/dev/sda1"]} true = Ok [] ∧
  GetGlobalFsInfo ex_self ex_fsys true = Ok [ex_record] ∧
  [] = filter (λ fs, Device (fs_DeviceInfo fs) ∈ ({["/dev/sda1"]} : gset string))
         [ex_record].
Proof.
  split; [vm_compute; reflexivity|]. split; [vm_compute; reflexivity|].
  apply (X12_devices_restrict_global ex_self ex_fsys {["/dev/sda1"]} true).
  - vm_compute; reflexivity.
  - vm_compute; reflexivity.
Defined.

Lemma records_sublist fss filter cache :
  records fss filter cache `sublist_of` records fss (λ _ _, true) cache.
Proof.
  induction cache as [|[d p] cache IH]; [constructor|].
  rewrite !records_cons. unfold entryRecord.
  destruct (filter d p).
  - destruct_FsStats (FsStats fss d p); [done|]. by constructor.
  - destruct_FsStats (FsStats fss d p); [done|]. by constructor.
Qed.

(** X13: what a bulk operation returns for a mount set or a device set is a
    sub-list of what [GetGlobalFsInfo] returns: the same records, in the same
    order, some left out. *)
Theorem X13_bulk_sublist_global (self : RealFsInfo) (fsys : FileSystem)
    (op : BulkOp) (withIoStats : bool) (out all : list Fs) :
  runBulk self fsys op withIoStats = Ok out →
  GetGlobalFsInfo self fsys withIoStats = Ok all →
  out `sublist_of` all.
Proof.
  intros Ho Hg. apply runBulk_Ok_records in Ho as ->.
  apply (runBulk_Ok_records self fsys OpGlobal) in Hg as ->.
  apply records_sublist.
Qed.

Lemma X13_bulk_sublist_global_witness :
  runBulk ex_self ex_fsys (OpMounts {["/"]}) false = Ok [] ∧
  GetGlobalFsInfo ex_self ex_fsys false = Ok [ex_record] ∧
  [] `sublist_of` [ex_record].
Proof.
  split; [vm_compute; reflexivity|]. split; [vm_compute; reflexivity|].
  apply (X13_bulk_sublist_global ex_self ex_fsys (OpMounts {["/"]}) false).
  - vm_compute; reflexivity.
  - vm_compute; reflexivity.
Defined.

Lemma records_devices_subseteq fss filter cache fs :
  fs ∈ records fss filter cache → Device (fs_DeviceInfo fs) ∈ cache.*1.
Proof.
  unfold records. intros ([d p] & Hin & He)%list_elem_of_omap.
  apply entryRecord_Some in He as (_ & _ & -> & _). simpl.
  apply list_elem_of_fmap. by exists (d, p).
Qed.

Lemma records_NoDup fss filter cache :
  NoDup cache.*1 →
  NoDup ((λ fs, Device (fs_DeviceInfo fs)) <$> records fss filter cache).
Proof.
  induction cache as [|[d p] cache IH]; [constructor|].
  rewrite fmap_cons. intros [Hd Hnd]%NoDup_cons. rewrite records_cons.
  destruct (entryRecord fss filter (d, p)) as [fs|] eqn:He; [|by apply IH].
  apply entryRecord_Some in He as (_ & _ & Hdi & _).
  rewrite fmap_cons. apply NoDup_cons. split; [|by apply IH].
  rewrite Hdi. simpl. intros (fs' & Heq & Hin)%list_elem_of_fmap.
  apply records_devices_subseteq in Hin. by rewrite <- Heq in Hin.
Qed.

(** X14: when the devices of the partition cache are distinct, as the keys
    of a map are, the devices of the records a bulk operation returns are
    distinct too. *)
Theorem X14_bulk_devices_distinct (self : RealFsInfo) (fsys : FileSystem)
    (op : BulkOp) (withIoStats : bool) (out : list Fs) :
  NoDup (partitionCache self).*1 →
  runBulk self fsys op withIoStats = Ok out →
  NoDup ((λ fs, Device (fs_DeviceInfo fs)) <$> out).
Proof.
  intros Hnd Hrun. apply runBulk_Ok_records in Hrun as ->.
  by apply records_NoDup.
Qed.

Lemma X14_bulk_devices_distinct_witness :
  NoDup (partitionCache ex_self).*1 ∧
  runBulk ex_self ex_fsys OpGlobal false = Ok [ex_record] ∧
  NoDup ((λ fs, Device (fs_DeviceInfo fs)) <$> [ex_record]).
Proof.
  assert (NoDup (partitionCache ex_self).*1) as Hnd.
  { apply NoDup_cons. split; [|apply NoDup_singleton].
    intros Hin%list_elem_of_singleton. discriminate. }
  split; [exact Hnd|]. split; [vm_compute; reflexivity|].
  apply (X14_bulk_devices_distinct ex_self ex_fsys OpGlobal false [ex_record]).
  - exact Hnd.
  - vm_compute; reflexivity.
Defined.

(** X15: with the empty device set, and with the empty mount set, a bulk
    operation that succeeds returns no record. *)
Theorem X15_bulk_empty_set (self : RealFsInfo) (fsys : FileSystem)
    (withIoStats : bool) (out : list Fs) :
  GetFsInfoForDevices self fsys ∅ withIoStats = Ok out ∨
  GetFsInfoForMounts self fsys ∅ withIoStats = Ok out →
  out = [].
Proof.
  intros [H|H].
  - apply (runBulk_Ok_records self fsys (OpDevices ∅)) in H as ->.
    induction (partitionCache self) as [|[d p] cache IH]; [reflexivity|].
    rewrite records_cons. unfold entryRecord at 1. cbn [opFilter].
    by rewrite bool_decide_eq_false_2 by set_solver.
  - apply (runBulk_Ok_records self fsys (OpMounts ∅)) in H as ->.
    induction (partitionCache self) as [|[d p] cache IH]; [reflexivity|].
    rewrite records_cons. unfold entryRecord at 1. cbn [opFilter].
    by rewrite bool_decide_eq_false_2 by set_solver.
Qed.

Lemma X15_bulk_empty_set_witness :
  GetFsInfoForDevices ex_self ex_fsys ∅ false = Ok [] ∧ ([] : list Fs) = [].
Proof.
  split; [vm_compute; reflexivity|].
  apply (X15_bulk_empty_set ex_self ex_fsys false []).
  left. vm_compute; reflexivity.
Defined.

(** ** Mount points and labels *)

Lemma PartitionForDevice_NoDup cache d p :
  NoDup cache.*1 → (d, p) ∈ cache → PartitionForDevice cache d = Ok p.
Proof.
  induction cache as [|[d' p'] cache IH]; intros Hnd Hin.
  - by apply elem_of_nil in Hin.
  - rewrite fmap_cons in Hnd. apply NoDup_cons in Hnd as [Hd' Hnd].
    cbn [PartitionForDevice].
    apply elem_of_cons in Hin as [[= -> ->]|Hin].
    + by rewrite String.eqb_refl.
    + destruct (String.eqb_spec d' d) as [->|_]; [|by apply IH].
      exfalso. apply Hd'. apply list_elem_of_fmap. by exists (d, p).
Qed.

(** X16: when the devices of the partition cache are distinct, the device of
    every record that [GetFsInfoForMounts] returns has, by
    [GetMountpointForDevice], a mount point of the mount set. *)
Theorem X16_mounts_mountpoint (self : RealFsInfo) (fsys : FileSystem)
    (mountSet : gset string) (withIoStats : bool) (out : list Fs) (fs : Fs) :
  NoDup (partitionCache self).*1 →
  GetFsInfoForMounts self fsys mountSet withIoStats = Ok out →
  fs ∈ out →
  ∃ mp,
    GetMountpointForDevice self (Device (fs_DeviceInfo fs)) = Ok mp ∧
    mp ∈ mountSet.
Proof.
  intros Hnd Hrun Hin.
  apply (runBulk_Ok_records self fsys (OpMounts mountSet)) in Hrun as ->.
  unfold records in Hin. apply list_elem_of_omap in Hin as ([d p] & Hin & He).
  apply entryRecord_Some in He as (Hpass & _ & -> & _). simpl.
  exists (mountpoint p). unfold GetMountpointForDevice.
  rewrite (PartitionForDevice_NoDup _ _ _ Hnd Hin).
  split; [reflexivity|]. cbn [opFilter] in Hpass.
  by apply bool_decide_eq_true_1 in Hpass.
Qed.

Lemma X16_mounts_mountpoint_witness :
  NoDup (partitionCache ex_self).*1 ∧
  GetFsInfoForMounts ex_self ex_fsys {["/data"]} false = Ok [ex_record] ∧
  ∃ mp,
    GetMountpointForDevice ex_self (Device (fs_DeviceInfo ex_record)) = Ok mp ∧
    mp ∈ ({["/data"]} : gset string).
Proof.
  assert (NoDup (partitionCache ex_self).*1) as Hnd.
  { apply NoDup_cons. split; [|apply NoDup_singleton].
    intros Hin%list_elem_of_singleton. discriminate. }
  split; [exact Hnd|]. split; [vm_compute; reflexivity|].
  apply (X16_mounts_mountpoint ex_self ex_fsys {["/data"]} false [ex_record]).
  - exact Hnd.
  - vm_compute; reflexivity.
  - left.
Defined.

Lemma omap_cons_eq {A B} (f : A → option B) x l :
  omap f (x :: l) =
    match f x with Some y => y :: omap f l | None => omap f l end.
Proof. reflexivity. Qed.

Lemma ApplyOverLabels_collect labelIndex device acc :
  ApplyOverLabels labelIndex
    (λ label deviceForLabel labels,
       if String.eqb device deviceForLabel
       then (labels ++ [label], None)
       else (labels, None)) acc =
  (acc ++ omap (λ e : string * string,
                  if String.eqb device e.2 then Some e.1 else None)
            labelIndex, None).
Proof.
  revert acc. induction labelIndex as [|[l d] idx IH]; intros acc.
  - simpl. by rewrite app_nil_r.
  - cbn [ApplyOverLabels]. rewrite omap_cons_eq. cbn [fst snd].
    destruct (String.eqb device d); rewrite IH; [|done].
    by rewrite <- app_assoc.
Qed.

Lemma GetLabelsForDevice_omap labelIndex device :
  GetLabelsForDevice labelIndex device =
    Ok (omap (λ e : string * string,
                if String.eqb device e.2 then Some e.1 else None) labelIndex).
Proof. unfold GetLabelsForDevice. by rewrite ApplyOverLabels_collect. Qed.

(** X17: [GetLabelsForDevice] never fails, and returns exactly the labels
    that the index maps to the device (none for a device without label). *)
Theorem X17_labels_of_device (labelIndex : LabelIndex) (device : string) :
  ∃ labels,
    GetLabelsForDevice labelIndex device = Ok labels ∧
    ∀ label, label ∈ labels ↔ (label, device) ∈ labelIndex.
Proof.
  rewrite GetLabelsForDevice_omap. eexists. split; [reflexivity|].
  intros label. rewrite list_elem_of_omap. split.
  - intros ([l d] & Hin & He). simpl in He.
    destruct (String.eqb_spec device d) as [->|]; [|discriminate].
    by injection He as ->.
  - intros Hin. exists (label, device). split; [done|]. simpl.
    by rewrite String.eqb_refl.
Qed.

Lemma DeviceNameForLabel_Ok labelIndex label d :
  DeviceNameForLabel labelIndex label = Ok d → (label, d) ∈ labelIndex.
Proof.
  induction labelIndex as [|[l d'] idx IH]; cbn [DeviceNameForLabel];
    [discriminate|].
  destruct (String.eqb_spec l label) as [->|_].
  - intros [= ->]. left.
  - intros H. right. by apply IH.
Qed.

Lemma DeviceNameForLabel_NoDup labelIndex label d :
  NoDup labelIndex.*1 → (label, d) ∈ labelIndex →
  DeviceNameForLabel labelIndex label = Ok d.
Proof.
  induction labelIndex as [|[l d'] idx IH]; intros Hnd Hin.
  - by apply elem_of_nil in Hin.
  - rewrite fmap_cons in Hnd. apply NoDup_cons in Hnd as [Hl Hnd].
    cbn [DeviceNameForLabel].
    apply elem_of_cons in Hin as [[= -> ->]|Hin].
    + by rewrite String.eqb_refl.
    + destruct (String.eqb_spec l label) as [->|_]; [|by apply IH].
      exfalso. apply Hl. apply list_elem_of_fmap. by exists (label, d).
Qed.

(** X18: the two label functions agree.  The device that [GetDeviceForLabel]
    finds for a label has the label among those of [GetLabelsForDevice];
    and when the labels of the index are distinct, every label that
    [GetLabelsForDevice] returns for a device is resolved to that device by
    [GetDeviceForLabel]. *)
Theorem X18_label_round_trip (labelIndex : LabelIndex) (label device : string)
    (labels : list string) :
  GetLabelsForDevice labelIndex device = Ok labels →
  (GetDeviceForLabel labelIndex label = Ok device → label ∈ labels) ∧
  (NoDup labelIndex.*1 → label ∈ labels →
   GetDeviceForLabel labelIndex label = Ok device).
Proof.
  rewrite GetLabelsForDevice_omap. intros [= <-].
  assert (∀ l, l ∈ omap (λ e : string * string,
                           if String.eqb device e.2 then Some e.1 else None)
                      labelIndex ↔ (l, device) ∈ labelIndex) as Hmem.
  { intros l. rewrite list_elem_of_omap. split.
    - intros ([l' d] & Hin & He). simpl in He.
      destruct (String.eqb_spec device d) as [->|]; [|discriminate].
      by injection He as ->.
    - intros Hin. exists (l, device). split; [done|]. simpl.
      by rewrite String.eqb_refl. }
  split.
  - intros H. apply Hmem. by apply DeviceNameForLabel_Ok.
  - intros Hnd Hin. apply Hmem in Hin. by apply DeviceNameForLabel_NoDup.
Qed.

(** ** The layout of device numbers *)

Lemma major_land n : major n = Z.land (Z.shiftr n 8) 4095.
Proof.
  unfold major. apply to_uint_small. pose proof (major_bits_range n). lia.
Qed.

Lemma minor_lor n :
  minor n = Z.lor (Z.land n 255) (Z.land (Z.shiftr n 12) 1048320).
Proof. unfold minor. apply to_uint_small, minor_bits_range. Qed.

Lemma testbit_ones_ltb k i :
  (0 ≤ k)%Z → (0 ≤ i)%Z → Z.testbit (Z.ones k) i = (i <? k)%Z.
Proof.
  intros Hk Hi. destruct (i <? k)%Z eqn:Hlt.
  - apply Z.ltb_lt in Hlt. apply Z.ones_spec_low. lia.
  - apply Z.ltb_ge in Hlt. apply Z.ones_spec_high. lia.
Qed.

Lemma testbit_mask_minor i :
  (0 ≤ i)%Z → Z.testbit 1048320 i = ((8 <=? i) && (i <? 20))%Z.
Proof.
  intros Hi. change 1048320%Z with (Z.shiftl (Z.ones 12) 8).
  rewrite Z.shiftl_spec by done.
  destruct (8 <=? i)%Z eqn:H8.
  - apply Z.leb_le in H8. rewrite testbit_ones_ltb by lia. simpl.
    destruct (i <? 20)%Z eqn:H20; [apply Z.ltb_lt in H20 | apply Z.ltb_ge in H20].
    + apply Z.ltb_lt. lia.
    + apply Z.ltb_ge. lia.
  - apply Z.leb_gt in H8. apply Z.testbit_neg_r. lia.
Qed.

Lemma major_testbit n i :
  (0 ≤ i)%Z → Z.testbit (major n) i = ((i <? 12)%Z && Z.testbit n (i + 8)).
Proof.
  intros Hi. rewrite major_land, Z.land_spec, Z.shiftr_spec by done.
  change 4095%Z with (Z.ones 12). rewrite testbit_ones_ltb by lia.
  apply andb_comm.
Qed.

Lemma minor_testbit n i :
  (0 ≤ i)%Z →
  Z.testbit (minor n) i =
    if (i <? 8)%Z then Z.testbit n i
    else ((i <? 20)%Z && Z.testbit n (i + 12)).
Proof.
  intros Hi. rewrite minor_lor, Z.lor_spec, !Z.land_spec, Z.shiftr_spec by done.
  change 255%Z with (Z.ones 8).
  rewrite testbit_ones_ltb, testbit_mask_minor by lia.
  destruct (i <? 8)%Z eqn:H8.
  - apply Z.ltb_lt in H8.
    replace (8 <=? i)%Z with false by (symmetry; apply Z.leb_gt; lia).
    simpl. by rewrite andb_true_r, andb_false_r, orb_false_r.
  - apply Z.ltb_ge in H8.
    replace (8 <=? i)%Z with true by (symmetry; apply Z.leb_le; lia).
    simpl. rewrite andb_false_r. simpl. apply andb_comm.
Qed.

(** X19: the layout that [major] and [minor] read.  Bit [i] of the major
    number is bit [i + 8] of the device number, for [i] below 12; bit [i] of
    the minor number is bit [i] of the device number for [i] below 8 and bit
    [i + 12] for [i] from 8 to 19; all other bits are zero, so that the major
    number is below 2^12 and the minor number below 2^20. *)
Theorem X19_major_minor_layout (n i : Z) :
  (0 ≤ i)%Z →
  Z.testbit (major n) i = ((i <? 12)%Z && Z.testbit n (i + 8)) ∧
  Z.testbit (minor n) i =
    (if (i <? 8)%Z then Z.testbit n i
     else ((i <? 20)%Z && Z.testbit n (i + 12))) ∧
  (0 ≤ major n < 2 ^ 12)%Z ∧ (0 ≤ minor n < 2 ^ 20)%Z.
Proof.
  intros Hi. split; [by apply major_testbit|]. split; [by apply minor_testbit|].
  rewrite major_land, minor_lor.
  split; [apply major_bits_range | apply minor_bits_range].
Qed.

Lemma X19_major_minor_layout_witness :
  (0 ≤ 3)%Z ∧
  Z.testbit (major 2049) 3 = ((3 <? 12)%Z && Z.testbit 2049 (3 + 8)) ∧
  (0 ≤ major 2049 < 2 ^ 12)%Z.
Proof.
  split; [lia|].
  destruct (X19_major_minor_layout 2049 3 ltac:(lia)) as (H1 & _ & H3 & _).
  split; [exact H1 | exact H3].
Defined.

Lemma testbit_mod32 n i :
  (0 ≤ i)%Z →
  Z.testbit (n mod 2 ^ 32) i = ((i <? 32)%Z && Z.testbit n i).
Proof.
  intros Hi. destruct (i <? 32)%Z eqn:H32.
  - apply Z.ltb_lt in H32. simpl. apply Z.mod_pow2_bits_low. lia.
  - apply Z.ltb_ge in H32. simpl. apply Z.mod_pow2_bits_high. lia.
Qed.

(** X20: the two numbers hold the low 32 bits of the device number and
    nothing else: two device numbers have the same major and the same minor
    number exactly when they agree modulo 2^32. *)
Theorem X20_major_minor_low32 (n n' : Z) :
  major n = major n' ∧ minor n = minor n' ↔ n mod 2 ^ 32 = n' mod 2 ^ 32.
Proof.
  split.
  - intros [Hmaj Hmin]. apply Z.bits_inj'. intros i Hi.
    rewrite !testbit_mod32 by done.
    destruct (i <? 32)%Z eqn:H32; [|reflexivity]. apply Z.ltb_lt in H32. simpl.
    destruct (Z_lt_ge_dec i 8) as [H8|H8].
    + pose proof (minor_testbit n i Hi) as H1.
      pose proof (minor_testbit n' i Hi) as H2.
      replace (i <? 8)%Z with true in H1, H2 by (symmetry; apply Z.ltb_lt; lia).
      congruence.
    + destruct (Z_lt_ge_dec i 20) as [H20|H20].
      * pose proof (major_testbit n (i - 8) ltac:(lia)) as H1.
        pose proof (major_testbit n' (i - 8) ltac:(lia)) as H2.
        replace (i - 8 <? 12)%Z with true in H1, H2
          by (symmetry; apply Z.ltb_lt; lia).
        replace (i - 8 + 8)%Z with i in H1, H2 by lia.
        simpl in H1, H2. congruence.
      * pose proof (minor_testbit n (i - 12) ltac:(lia)) as H1.
        pose proof (minor_testbit n' (i - 12) ltac:(lia)) as H2.
        replace (i - 12 <? 8)%Z with false in H1, H2
          by (symmetry; apply Z.ltb_ge; lia).
        replace (i - 12 <? 20)%Z with true in H1, H2
          by (symmetry; apply Z.ltb_lt; lia).
        replace (i - 12 + 12)%Z with i in H1, H2 by lia.
        simpl in H1, H2. congruence.
  - intros Hmod.
    assert (∀ j, (0 ≤ j < 32)%Z → Z.testbit n j = Z.testbit n' j) as Hbits.
    { intros j Hj.
      pose proof (testbit_mod32 n j ltac:(lia)) as H1.
      pose proof (testbit_mod32 n' j ltac:(lia)) as H2.
      replace (j <? 32)%Z with true in H1, H2 by (symmetry; apply Z.ltb_lt; lia).
      simpl in H1, H2. congruence. }
    split; apply Z.bits_inj'; intros i Hi.
    + rewrite !major_testbit by done.
      destruct (i <? 12)%Z eqn:H12; [|reflexivity]. apply Z.ltb_lt in H12.
      simpl. apply Hbits. lia.
    + rewrite !minor_testbit by done.
      destruct (i <? 8)%Z eqn:H8; [apply Z.ltb_lt in H8; apply Hbits; lia|].
      destruct (i <? 20)%Z eqn:H20; [|reflexivity]. apply Z.ltb_lt in H20.
      apply Z.ltb_ge in H8. simpl. apply Hbits. lia.
Qed.

Lemma testbit_high_false k x j :
  (0 ≤ k)%Z → (0 ≤ x < 2 ^ k)%Z → (k ≤ j)%Z → Z.testbit x j = false.
Proof.
  intros Hk Hx Hj.
  by apply (proj1 (Z.bounded_iff_bits_nonneg k x Hk (proj1 Hx)) (proj2 Hx)).
Qed.

Lemma testbit_encode ma mi j :
  (0 ≤ j)%Z →
  Z.testbit (Z.lor (Z.land mi 255)
               (Z.lor (Z.shiftl ma 8) (Z.shiftl (Z.shiftr mi 8) 20))) j =
    ((j <? 8)%Z && Z.testbit mi j) || Z.testbit ma (j - 8)
    || ((20 <=? j)%Z && Z.testbit mi (j - 12)).
Proof.
  intros Hj. rewrite !Z.lor_spec, Z.land_spec, !Z.shiftl_spec by done.
  change 255%Z with (Z.ones 8). rewrite testbit_ones_ltb by lia.
  rewrite orb_assoc. f_equal; [by rewrite andb_comm|].
  destruct (20 <=? j)%Z eqn:H20.
  - apply Z.leb_le in H20. rewrite Z.shiftr_spec by lia. simpl.
    f_equal. lia.
  - apply Z.leb_gt in H20. simpl. apply Z.testbit_neg_r. lia.
Qed.

(** X21: decoding is onto.  Every major number below 2^12 with every minor
    number below 2^20 is what [major] and [minor] read from some device
    number below 2^32. *)
Theorem X21_major_minor_onto (ma mi : Z) :
  (0 ≤ ma < 2 ^ 12)%Z → (0 ≤ mi < 2 ^ 20)%Z →
  ∃ n, (0 ≤ n < 2 ^ 32)%Z ∧ major n = ma ∧ minor n = mi.
Proof.
  intros Hma Hmi.
  exists (Z.lor (Z.land mi 255)
            (Z.lor (Z.shiftl ma 8) (Z.shiftl (Z.shiftr mi 8) 20))).
  split; [|split].
  - apply Z.bounded_iff_bits_nonneg'; [lia| |].
    + apply Z.lor_nonneg. split; [apply Z.land_nonneg; lia|].
      apply Z.lor_nonneg. split; [apply Z.shiftl_nonneg; lia|].
      apply Z.shiftl_nonneg, Z.shiftr_nonneg. lia.
    + intros j Hj. rewrite testbit_encode by lia.
      replace (j <? 8)%Z with false by (symmetry; apply Z.ltb_ge; lia).
      rewrite (testbit_high_false 12 ma (j - 8)) by lia.
      rewrite (testbit_high_false 20 mi (j - 12)) by lia.
      by rewrite andb_false_r.
  - apply Z.bits_inj'. intros i Hi.
    rewrite major_testbit, testbit_encode by lia.
    destruct (i <? 12)%Z eqn:H12.
    + apply Z.ltb_lt in H12.
      replace (i + 8 <? 8)%Z with false by (symmetry; apply Z.ltb_ge; lia).
      replace (20 <=? i + 8)%Z with false by (symmetry; apply Z.leb_gt; lia).
      simpl. rewrite orb_false_r. f_equal. lia.
    + apply Z.ltb_ge in H12. simpl. symmetry.
      by apply (testbit_high_false 12).
  - apply Z.bits_inj'. intros i Hi.
    rewrite minor_testbit, !testbit_encode by lia.
    destruct (i <? 8)%Z eqn:H8.
    + apply Z.ltb_lt in H8.
      replace (20 <=? i)%Z with false by (symmetry; apply Z.leb_gt; lia).
      rewrite (Z.testbit_neg_r ma (i - 8)) by lia. simpl.
      by rewrite !orb_false_r.
    + apply Z.ltb_ge in H8. destruct (i <? 20)%Z eqn:H20.
      * apply Z.ltb_lt in H20.
        replace (i + 12 <? 8)%Z with false by (symmetry; apply Z.ltb_ge; lia).
        replace (20 <=? i + 12)%Z with true by (symmetry; apply Z.leb_le; lia).
        rewrite (testbit_high_false 12 ma (i + 12 - 8)) by lia.
        simpl. f_equal. lia.
      * apply Z.ltb_ge in H20. simpl. symmetry.
        by apply (testbit_high_false 20).
Qed.

Lemma X21_major_minor_onto_witness :
  (0 ≤ 8 < 2 ^ 12)%Z ∧ (0 ≤ 17 < 2 ^ 20)%Z ∧
  ∃ n, (0 ≤ n < 2 ^ 32)%Z ∧ major n = 8%Z ∧ minor n = 17%Z.
Proof.
  split; [lia|]. split; [lia|].
  apply (X21_major_minor_onto 8 17); lia.
Defined.

Lemma DeviceInfoForMajorMinor_Ok cache ma mi di :
  DeviceInfoForMajorMinor cache ma mi = Ok di →
  Major di = ma ∧ Minor di = mi ∧
  ∃ p, (Device di, p) ∈ cache ∧ part_major p = ma ∧ part_minor p = mi.
Proof.
  induction cache as [|[d p] cache IH]; cbn [DeviceInfoForMajorMinor];
    [discriminate|].
  destruct ((part_major p =? ma) && (part_minor p =? mi))%Z eqn:Heq.
  - apply andb_prop in Heq as [H1%Z.eqb_eq H2%Z.eqb_eq].
    intros [= <-]. simpl. repeat split. exists p. split; [left | done].
  - intros H. destruct (IH H) as (? & ? & p' & ? & ? & ?).
    repeat split; try done. exists p'. split; [by right | done].
Qed.

(** X22: a device that [GetDirFsDevice] returns is a key of the partition
    cache whose partition has the major and minor numbers decoded from the
    device number of the directory; these are below 2^12 and 2^20, so a
    partition with a larger number is never returned. *)
Theorem X22_dir_device_sound (self : RealFsInfo)
    (syscall_Stat : string → Stat_t + Errno) (dir : string) (di : DeviceInfo) :
  GetDirFsDevice self syscall_Stat dir = Ok di →
  ∃ buf p,
    syscall_Stat dir = inl buf ∧
    (Device di, p) ∈ partitionCache self ∧
    part_major p = Major di ∧ part_minor p = Minor di ∧
    Major di = major (Dev buf) ∧ Minor di = minor (Dev buf) ∧
    (0 ≤ part_major p < 2 ^ 12)%Z ∧ (0 ≤ part_minor p < 2 ^ 20)%Z.
Proof.
  unfold GetDirFsDevice. destruct (syscall_Stat dir) as [buf|errno] eqn:Hstat;
    [|discriminate].
  rewrite bind_Ok_r. intros H.
  apply DeviceInfoForMajorMinor_Ok in H as (Hma & Hmi & p & Hin & Hp1 & Hp2).
  exists buf, p. rewrite Hma, Hmi, Hp1, Hp2. repeat split; try done.
  - rewrite major_land. apply major_bits_range.
  - rewrite major_land. apply major_bits_range.
  - rewrite minor_lor. apply minor_bits_range.
  - rewrite minor_lor. apply minor_bits_range.
Qed.

Lemma X22_dir_device_sound_witness :
  GetDirFsDevice ex_self ex_stat "/data/db" =
    Ok {| Device := "/dev/sdb1"; Major := 8; Minor := 17 |} ∧
  ∃ buf p,
    ex_stat "/data/db" = inl buf ∧
    ("/dev/sdb1", p) ∈ partitionCache ex_self ∧
    part_major p = 8%Z ∧ part_minor p = 17%Z ∧
    8%Z = major (Dev buf) ∧ 17%Z = minor (Dev buf) ∧
    (0 ≤ part_major p < 2 ^ 12)%Z ∧ (0 ≤ part_minor p < 2 ^ 20)%Z.
Proof.
  split; [vm_compute; reflexivity|].
  apply (X22_dir_device_sound ex_self ex_stat "/data/db"
           {| Device := "/dev/sdb1"; Major := 8; Minor := 17 |}).
  vm_compute; reflexivity.
Defined.

Lemma X18_label_round_trip_witness :
  GetLabelsForDevice ex_labels "/dev/sdb1" = Ok ["data"; "docker"] ∧
  (GetDeviceForLabel ex_labels "docker" = Ok "/dev/sdb1" →
   "docker" ∈ ["data"; "docker"]) ∧
  (NoDup ex_labels.*1 → "docker" ∈ ["data"; "docker"] →
   GetDeviceForLabel ex_labels "docker" = Ok "/dev/sdb1").
Proof.
  split; [vm_compute; reflexivity|].
  apply (X18_label_round_trip ex_labels "docker" "/dev/sdb1" ["data"; "docker"]).
  vm_compute; reflexivity.
Defined.

Lemma X6_diskstats_bad_numeral_witness :
  bad_fsys !! "/proc/diskstats" =
    Some (File ([] ++ "8 17 sdb1 40 0 280 223 7 0 22 108 0 330 330 x 5" :: [])) ∧
  ∃ kind,
    getDiskStatsMap bad_fsys "/proc/diskstats" =
      Err (NumError "ParseUint" "x" kind).
Proof.
  split; [reflexivity|].
  apply (X6_diskstats_bad_numeral bad_fsys "/proc/diskstats" [] []
           "8 17 sdb1 40 0 280 223 7 0 22 108 0 330 330 x 5" "8" "17" "sdb1" "x"
           ["40"; "0"; "280"; "223"; "7"; "0"; "22"; "108"; "0"; "330"; "330"]
           ["5"]).
  - reflexivity.
  - apply Forall_nil_2.
  - vm_compute; reflexivity.
  - vm_compute; reflexivity.
  - simpl; lia.
  - repeat (apply Forall_cons; split;
            [eexists; apply strconv_ParseUint_spec; vm_compute; reflexivity|]).
    apply Forall_nil_2.
  - intros v Hv. apply strconv_ParseUint_spec in Hv. vm_compute in Hv.
    discriminate.
Defined.

Lemma X7_diskstats_few_columns_witness :
  few_fsys !! "/proc/diskstats" = Some (File ([] ++ "8 17 sdb1 40 0 x" :: [])) ∧
  strings_Fields "8 17 sdb1 40 0 x" = ["8"; "17"; "sdb1"; "40"; "0"; "x"] ∧
  getDiskStatsMap few_fsys "/proc/diskstats" =
    Err (Errorf "could not parse all 11 columns of /proc/diskstats" []).
Proof.
  split; [reflexivity|]. split; [vm_compute; reflexivity|].
  apply (X7_diskstats_few_columns few_fsys "/proc/diskstats" [] []
           "8 17 sdb1 40 0 x" "8" "17" "sdb1" ["40"; "0"; "x"]).
  - reflexivity.
  - apply Forall_nil_2.
  - vm_compute; reflexivity.
  - vm_compute; reflexivity.
  - simpl; lia.
Defined.

Lemma X8_diskstats_other_lines_ignored_witness :
  loop_fsys !! "/proc/diskstats" =
    Some (File ([ex_line] ++ "   7       0 loop0 0 0 0 0 0 0 0 0 0 0 0" :: [])) ∧
  MatchString partitionRegex "loop0" = false ∧
  getDiskStatsMap loop_fsys "/proc/diskstats" =
    getDiskStatsMap ex_fsys "/proc/diskstats".
Proof.
  split; [reflexivity|]. split; [vm_compute; reflexivity|].
  apply (X8_diskstats_other_lines_ignored loop_fsys ex_fsys "/proc/diskstats"
           "/proc/diskstats" [ex_line] []
           "   7       0 loop0 0 0 0 0 0 0 0 0 0 0 0" "loop0").
  - reflexivity.
  - reflexivity.
  - vm_compute; reflexivity.
  - vm_compute; reflexivity.
Defined.

(** ** Directory usage *)

Lemma GetDirUsage_Ok_iff (exec_Command : list string → Cmd)
    (dir : string) (timeout v : Z) :
  fst (GetDirUsage exec_Command dir timeout) = Ok v ↔
  dir ≠ "" ∧
  cmd_StdoutPipe (exec_Command (du_args dir)) = None ∧
  cmd_StderrPipe (exec_Command (du_args dir)) = None ∧
  cmd_Start (exec_Command (du_args dir)) = None ∧
  cmd_Wait (exec_Command (du_args dir)) timeout = None ∧
  ∃ field rest kb,
    strings_Fields (cmd_stdout (exec_Command (du_args dir))).1 = field :: rest ∧
    isUint64 field kb ∧
    v = ((kb * 1024) mod 2 ^ 64)%Z.
Proof.
  unfold GetDirUsage, du_args.
  destruct (String.eqb_spec dir "") as [->|Hdir].
  { split; [discriminate | intros [? _]; done]. }
  set (cmd := exec_Command ["nice"; "-n"; "19"; "du"; "-s"; dir]).
  destruct (cmd_StdoutPipe cmd) as [e|];
    [split; [discriminate | intros (_ & ? & _); discriminate]|].
  destruct (cmd_StderrPipe cmd) as [e|];
    [split; [discriminate | intros (_ & _ & ? & _); discriminate]|].
  destruct (cmd_Start cmd) as [e|];
    [split; [discriminate | intros (_ & _ & _ & ? & _); discriminate]|].
  destruct (cmd_stdout cmd) as [stdoutb souterr]. cbn [fst].
  destruct (cmd_Wait cmd timeout) as [e|];
    [split; [discriminate | intros (_ & _ & _ & _ & ? & _); discriminate]|].
  unfold index.
  destruct (strings_Fields stdoutb) as [|field rest] eqn:Hf; cbn [lookup list_lookup fst].
  { split; [discriminate|].
    intros (_ & _ & _ & _ & _ & ? & ? & ? & ? & _). discriminate. }
  destruct (strconv_ParseUint field) as [kb| |] eqn:Hp; cbn [fst].
  - apply strconv_ParseUint_spec in Hp. split.
    + intros [= <-]. repeat split; try done. by exists field, rest, kb.
    + intros (_ & _ & _ & _ & _ & f & r & kb' & [= <- <-] & Hkb & ->).
      destruct Hp as (_ & Hd & _), Hkb as (_ & Hd' & _). congruence.
  - split; [discriminate|].
    intros (_ & _ & _ & _ & _ & f & r & kb' & [= <- <-] & Hkb & _).
    apply strconv_ParseUint_spec in Hkb. congruence.
  - split; [discriminate|].
    intros (_ & _ & _ & _ & _ & f & r & kb' & [= <- <-] & Hkb & _).
    apply strconv_ParseUint_spec in Hkb. congruence.
Qed.

(** X23: [GetDirUsage] returns a value exactly when the directory is named,
    both pipes are set up, the command starts and [Wait] returns nil, and
    the first field of what the command wrote is the numeral of a 64-bit
    value; the value returned is that number times 1024, modulo 2^64.  What
    follows the first field is not looked at. *)
Theorem X23_dir_usage_success (exec_Command : list string → Cmd)
    (dir : string) (timeout v : Z) :
  fst (GetDirUsage exec_Command dir timeout) = Ok v ↔
  dir ≠ "" ∧
  cmd_StdoutPipe (exec_Command (du_args dir)) = None ∧
  cmd_StderrPipe (exec_Command (du_args dir)) = None ∧
  cmd_Start (exec_Command (du_args dir)) = None ∧
  cmd_Wait (exec_Command (du_args dir)) timeout = None ∧
  ∃ field rest kb,
    strings_Fields (cmd_stdout (exec_Command (du_args dir))).1 = field :: rest ∧
    isUint64 field kb ∧
    v = ((kb * 1024) mod 2 ^ 64)%Z.
Proof.
  unfold GetDirUsage, du_args.
  destruct (String.eqb_spec dir "") as [->|Hdir].
  { split; [discriminate | intros [? _]; done]. }
  set (cmd := exec_Command ["nice"; "-n"; "19"; "du"; "-s"; dir]).
  destruct (cmd_StdoutPipe cmd) as [e|];
    [split; [discriminate | intros (_ & ? & _); discriminate]|].
  destruct (cmd_StderrPipe cmd) as [e|];
    [split; [discriminate | intros (_ & _ & ? & _); discriminate]|].
  destruct (cmd_Start cmd) as [e|];
    [split; [discriminate | intros (_ & _ & _ & ? & _); discriminate]|].
  destruct (cmd_stdout cmd) as [stdoutb souterr]. cbn [fst].
  destruct (cmd_Wait cmd timeout) as [e|];
    [split; [discriminate | intros (_ & _ & _ & _ & ? & _); discriminate]|].
  unfold index.
  destruct (strings_Fields stdoutb) as [|field rest] eqn:Hf; cbn [lookup list_lookup fst].
  { split; [discriminate|].
    intros (_ & _ & _ & _ & _ & ? & ? & ? & ? & _). discriminate. }
  destruct (strconv_ParseUint field) as [kb| |] eqn:Hp; cbn [fst].
  - apply strconv_ParseUint_spec in Hp. split.
    + intros [= <-]. repeat split; try done. by exists field, rest, kb.
    + intros (_ & _ & _ & _ & _ & f & r & kb' & [= <- <-] & Hkb & ->).
      destruct Hp as (_ & Hd & _), Hkb as (_ & Hd' & _). congruence.
  - split; [discriminate|].
    intros (_ & _ & _ & _ & _ & f & r & kb' & [= <- <-] & Hkb & _).
    apply strconv_ParseUint_spec in Hkb. congruence.
  - split; [discriminate|].
    intros (_ & _ & _ & _ & _ & f & r & kb' & [= <- <-] & Hkb & _).
    apply strconv_ParseUint_spec in Hkb. congruence.
Qed.

(** X24: [GetDirUsage] panics exactly when the command ran and [Wait]
    returned nil, but the command wrote no field: the first field of an
    empty output is indexed without a check. *)
Theorem X24_dir_usage_panic (exec_Command : list string → Cmd)
    (dir : string) (timeout : Z) (msg : string) :
  fst (GetDirUsage exec_Command dir timeout) = Panic msg ↔
  dir ≠ "" ∧
  cmd_StdoutPipe (exec_Command (du_args dir)) = None ∧
  cmd_StderrPipe (exec_Command (du_args dir)) = None ∧
  cmd_Start (exec_Command (du_args dir)) = None ∧
  cmd_Wait (exec_Command (du_args dir)) timeout = None ∧
  strings_Fields (cmd_stdout (exec_Command (du_args dir))).1 = [] ∧
  msg = "index out of range".
Proof.
  unfold GetDirUsage, du_args.
  destruct (String.eqb_spec dir "") as [->|Hdir].
  { split; [discriminate | intros [? _]; done]. }
  set (cmd := exec_Command ["nice"; "-n"; "19"; "du"; "-s"; dir]).
  destruct (cmd_StdoutPipe cmd) as [e|];
    [split; [discriminate | intros (_ & ? & _); discriminate]|].
  destruct (cmd_StderrPipe cmd) as [e|];
    [split; [discriminate | intros (_ & _ & ? & _); discriminate]|].
  destruct (cmd_Start cmd) as [e|];
    [split; [discriminate | intros (_ & _ & _ & ? & _); discriminate]|].
  destruct (cmd_stdout cmd) as [stdoutb souterr]. cbn [fst].
  destruct (cmd_Wait cmd timeout) as [e|];
    [split; [discriminate | intros (_ & _ & _ & _ & ? & _); discriminate]|].
  unfold index.
  destruct (strings_Fields stdoutb) as [|field rest] eqn:Hf; cbn [lookup list_lookup fst].
  { split; [intros [= <-]; by repeat split | intros (_ & _ & _ & _ & _ & _ & ->); done]. }
  destruct (strconv_ParseUint field) as [kb| |] eqn:Hp; cbn [fst].
  - split; [discriminate | intros (_ & _ & _ & _ & _ & ? & _); discriminate].
  - split; [discriminate | intros (_ & _ & _ & _ & _ & ? & _); discriminate].
  - by apply strconv_ParseUint_no_panic in Hp.
Qed.

Lemma isUint64_range s kb : isUint64 s kb → (0 ≤ kb < 2 ^ 64)%Z.
Proof.
  intros (_ & Hd & Hle). apply decimal_ge in Hd; [|lia].
  unfold maxUint64 in Hle. lia.
Qed.

(** X25: the value that [GetDirUsage] returns is 1024 times the number of
    kilobytes that the command wrote, reduced modulo 2^54: a multiple of
    1024 below 2^64, equal to the number of bytes when the kilobytes are
    below 2^54 and smaller than it otherwise. *)
Theorem X25_dir_usage_value (exec_Command : list string → Cmd)
    (dir : string) (timeout v : Z) :
  fst (GetDirUsage exec_Command dir timeout) = Ok v →
  ∃ field rest kb,
    strings_Fields (cmd_stdout (exec_Command (du_args dir))).1 = field :: rest ∧
    isUint64 field kb ∧
    v = (1024 * (kb mod 2 ^ 54))%Z ∧
    (0 ≤ v < 2 ^ 64)%Z ∧
    ((kb < 2 ^ 54)%Z → v = (kb * 1024)%Z) ∧
    ((2 ^ 54 ≤ kb)%Z → (v < kb * 1024)%Z).
Proof.
  intros H. apply GetDirUsage_Ok_iff in H
    as (_ & _ & _ & _ & _ & field & rest & kb & Hf & Hkb & ->).
  exists field, rest, kb. split; [done|]. split; [done|].
  pose proof (isUint64_range _ _ Hkb) as Hr.
  assert (((kb * 1024) mod 2 ^ 64 = 1024 * (kb mod 2 ^ 54))%Z) as ->.
  { change (2 ^ 64)%Z with (2 ^ 54 * 1024)%Z.
    rewrite Z.mul_mod_distr_r by lia. lia. }
  pose proof (Z.mod_pos_bound kb (2 ^ 54) ltac:(lia)) as Hm.
  split; [done|]. split; [lia|]. split.
  - intros Hlt. rewrite Z.mod_small by lia. lia.
  - intros Hge. lia.
Qed.

Lemma X25_dir_usage_value_witness :
  fst (GetDirUsage (λ _, ex_cmd) "/data" 1000) = Ok 1263616%Z ∧
  ∃ field rest kb,
    strings_Fields (cmd_stdout ex_cmd).1 = field :: rest ∧
    isUint64 field kb ∧
    1263616%Z = (1024 * (kb mod 2 ^ 54))%Z ∧
    (0 ≤ 1263616 < 2 ^ 64)%Z ∧
    ((kb < 2 ^ 54)%Z → 1263616%Z = (kb * 1024)%Z) ∧
    ((2 ^ 54 ≤ kb)%Z → (1263616 < kb * 1024)%Z).
Proof.
  split; [vm_compute; reflexivity|].
  apply (X25_dir_usage_value (λ _, ex_cmd) "/data" 1000 1263616).
  vm_compute; reflexivity.
Defined.

(** ** One entry for each device *)

Lemma fold_entries_dom entries (m0 : gmap string DiskStats) :
  dom (fold_left (λ m e, match e with
                         | Some (k, v) => <[k := v]> m
                         | None => m
                         end) entries m0) =
    dom m0 ∪ list_to_set (omap (λ e : option (string * DiskStats), fst <$> e)
                            entries).
Proof.
  revert m0. induction entries as [|e entries IH]; intros m0.
  - simpl. by rewrite (right_id_L ∅ (∪)).
  - cbn [fold_left]. rewrite IH, omap_cons_eq.
    destruct e as [[k v]|]; simpl.
    + rewrite dom_insert_L, (comm_L (∪) {[k]} (dom m0)).
      by rewrite (assoc_L (∪)).
    + reflexivity.
Qed.

Lemma size_list_to_set_le (l : list string) :
  (size (list_to_set l : gset string) ≤ length l)%nat.
Proof.
  induction l as [|x l IH].
  - change (list_to_set [] : gset string) with (∅ : gset string).
    by rewrite size_empty.
  - change (list_to_set (x :: l) : gset string)
      with ({[x]} ∪ list_to_set l : gset string).
    rewrite size_union_alt, size_singleton. simpl.
    pose proof (subseteq_size (list_to_set l ∖ {[x]} : gset string)
                  (list_to_set l) (subseteq_difference_l _ _ _ (reflexivity _))).
    lia.
Qed.

Lemma length_omap_le {A B} (f : A → option B) l :
  (length (omap f l) ≤ length l)%nat.
Proof.
  induction l as [|x l IH]; [done|]. rewrite omap_cons_eq.
  destruct (f x); simpl; lia.
Qed.

Lemma entries_keys lines entries :
  Forall2 (λ l e, scanLine l = Ok e) lines entries →
  omap (λ e : option (string * DiskStats), fst <$> e) entries =
    (λ name, "/dev/" +:+ name) <$> partitionNames lines.
Proof.
  induction 1 as [|l e lines entries Hl _ IH]; [reflexivity|].
  unfold partitionNames. rewrite !omap_cons_eq. fold (partitionNames lines).
  destruct e as [[k v]|].
  - apply scanLine_Some_inv in Hl
      as (a & b & name & toks & ? & ? & ? & ? & ? & ? & ? & ? & ? & ? & ?
          & ? & Hf & Hm & -> & _ & _).
    rewrite Hf. cbn [lookup list_lookup]. rewrite Hm. simpl. by rewrite IH.
  - apply scanLine_None_inv in Hl as (a & b & name & toks & Hf & Hm).
    rewrite Hf. cbn [lookup list_lookup]. rewrite Hm. simpl. by rewrite IH.
Qed.

(** X27: when the parse of a file succeeds, the map has at most one entry
    for each line with an accepted device name, and exactly one for each
    when these names are distinct. *)
Theorem X27_diskstats_size (fsys : FileSystem) (file : string)
    (lines : list string) (m : gmap string DiskStats) :
  fsys !! file = Some (File lines) →
  getDiskStatsMap fsys file = Ok m →
  (size m ≤ length (partitionNames lines))%nat ∧
  (length (partitionNames lines) ≤ length lines)%nat ∧
  (NoDup (partitionNames lines) →
   size m = length (partitionNames lines)).
Proof.
  intros Hfile Hm. rewrite (getDiskStatsMap_File _ _ _ Hfile) in Hm.
  apply scanLoop_Ok_inv in Hm as (entries & HF & ->).
  pose proof (fold_entries_dom entries ∅) as Hdom.
  rewrite (entries_keys _ _ HF), dom_empty_L, (left_id_L ∅ (∪)) in Hdom.
  rewrite <- size_dom, Hdom. split; [|split].
  - etrans; [apply size_list_to_set_le|]. by rewrite length_fmap.
  - unfold partitionNames. apply length_omap_le.
  - intros Hnd. rewrite size_list_to_set, length_fmap; [done|].
    apply NoDup_fmap; [|done]. intros x y. apply dev_name_inj.
Qed.

Lemma X27_diskstats_size_witness :
  loop_fsys !! "/proc/diskstats" =
    Some (File [ex_line; "   7       0 loop0 0 0 0 0 0 0 0 0 0 0 0"]) ∧
  getDiskStatsMap loop_fsys "/proc/diskstats" =
    Ok {[ "/dev/sdb1" := ex_diskStats ]} ∧
  (size ({[ "/dev/sdb1" := ex_diskStats ]} : gmap string DiskStats) ≤
     length (partitionNames [ex_line; "   7       0 loop0 0 0 0 0 0 0 0 0 0 0 0"]))%nat.
Proof.
  split; [reflexivity|]. split; [vm_compute; reflexivity|].
  destruct (X27_diskstats_size loop_fsys "/proc/diskstats"
              [ex_line; "   7       0 loop0 0 0 0 0 0 0 0 0 0 0 0"]
              {[ "/dev/sdb1" := ex_diskStats ]}) as (H & _ & _).
  - reflexivity.
  - vm_compute; reflexivity.
  - exact H.
Defined.

(** ** The timeout of the directory usage *)


(** The timer kills a process when it is armed while the process runs and
    the process does not exit before it fires. *)
Lemma GetDirUsageTimed_kills :
  GetDirUsageTimed (λ _, detached_du) "/data" 100 =
    Returns
      (Err (Errorf
              "du command failed on %s with output stdout: %s, stderr: %s - %v"
              [ArgString "/data"; ArgString ""; ArgString "";
               ArgError (ExitError (-1))])) 100 true.
Proof. reflexivity. Qed.

(** C9: a [du] that runs for 2000 units of time and holds its pipes until
    it exits has not exited when a timeout of 100 elapses; the call does not
    kill it and returns no error: it returns 5120 at time 2000, when the
    process has exited by itself.  A command that never closes its standard
    output and never exits is not killed either: the call never returns. *)
Theorem C9_timeout_not_enforced :
  t_exit slow_du = Some (2000, None)%Z ∧ (100 < 2000)%Z ∧
  GetDirUsageTimed (λ _, slow_du) "/data" 100 = Returns (Ok 5120%Z) 2000 false ∧
  t_exit stuck_du = None ∧
  GetDirUsageTimed (λ _, stuck_du) "/data" 100 = Blocks.
Proof.
  split; [reflexivity|]. split; [lia|]. split; [vm_compute; reflexivity|].
  split; reflexivity.
Qed.


